(** * ESM-Scan: the mutation-scoring engine of [esmscan.py]

    A shallow embedding of [src/esmscan.py] and the properties of its
    mutation enumerator, its three scoring strategies and its result
    assembler.

    Python values are modelled as follows.
    - A [str] is the list of its characters; a one-character string such as
      [row[0]] is an [ascii].
    - An [int] is a [Z]; [len] and [range] indices are [nat].
    - An exception is a value of [error]; a function that may raise returns
      in the monad [M], which also records, in order, the forward passes of
      the model and the files written.  What was recorded before an
      exception stays recorded.
    - Tensor elements and Python floats are a type [num] with the
      subtraction of tensors and the builtin [sum] taken as operations; what
      depends on the arithmetic is stated for IEEE 754 binary32 as specified
      by [SpecFloat].
    - The [esm] package, [pandas] and [numpy] are outside the repository:
      the alphabet, the models and the alignment are given, and of the data
      frames only what [main] and [plot_esm_scan] use is modelled. *)

From Stdlib Require Import Ascii String ZArith Lia Bool Arith List.
From Stdlib Require Import DecimalString.
From Stdlib Require DecimalNat.
From Stdlib Require Import Floats.SpecFloat.
Import ListNotations.

Set Implicit Arguments.

(** ** Python strings, indices and slices *)

Definition str := list ascii.

Definition py (s : string) : str := list_ascii_of_string s.

(** [s[i]] on a list or a string: a negative index counts from the end;
    [None] stands for [IndexError]. *)
Definition py_index {A} (l : list A) (i : Z) : option A :=
  let n := Z.of_nat (length l) in
  if (0 <=? i)%Z then nth_error l (Z.to_nat i)
  else if (- n <=? i)%Z then nth_error l (Z.to_nat (n + i))
  else None.

(** [s[start:stop]] with step 1: out-of-range bounds are clamped, never an
    error. *)
Definition py_slice {A} (l : list A) (start stop : option Z) : list A :=
  let n := Z.of_nat (length l) in
  let clamp i := if (i <? 0)%Z then Z.max 0 (i + n) else Z.min i n in
  let lo := match start with Some i => clamp i | None => 0%Z end in
  let hi := match stop with Some i => clamp i | None => n end in
  firstn (Z.to_nat (hi - lo)) (skipn (Z.to_nat lo) l).

(** [l[i] = v] for an index [i >= 0]; [None] stands for [IndexError]. *)
Fixpoint list_set {A} (l : list A) (i : nat) (v : A) : option (list A) :=
  match l, i with
  | [], _ => None
  | _ :: r, O => Some (v :: r)
  | x :: r, S j => option_map (cons x) (list_set r j v)
  end.

(** [str(n)] for a non-negative [int]. *)
Definition str_of_nat (n : nat) : str :=
  py (NilZero.string_of_uint (Nat.to_uint n)).

Definition ascii_in (lo hi : nat) (c : ascii) : bool :=
  (lo <=? nat_of_ascii c) && (nat_of_ascii c <=? hi).

(** The characters [int] skips at both ends of its argument. *)
Definition is_space (c : ascii) : bool :=
  ascii_in 9 13 c || ascii_in 32 32 c || ascii_in 133 133 c || ascii_in 160 160 c.

Definition is_digit (c : ascii) : bool := ascii_in 48 57 c.

Definition digit_val (c : ascii) : Z := Z.of_nat (nat_of_ascii c - 48).

(** Decimal digits, with single underscores allowed between two digits. *)
Fixpoint int_digits (acc : Z) (after_digit : bool) (s : str) : option Z :=
  match s with
  | [] => if after_digit then Some acc else None
  | c :: r =>
      if is_digit c then int_digits (10 * acc + digit_val c) true r
      else if Ascii.eqb c "_" then
             if after_digit then int_digits acc false r else None
      else None
  end.

Fixpoint lstrip (s : str) : str :=
  match s with
  | c :: r => if is_space c then lstrip r else s
  | [] => []
  end.

Definition strip (s : str) : str := rev (lstrip (rev (lstrip s))).

(** [int(s)] in base 10: white space around an optional sign and decimal
    digits; [None] stands for [ValueError].  The limit that recent
    interpreters put on the number of digits is not modelled. *)
Definition py_int (s : str) : option Z :=
  match strip s with
  | c :: r =>
      if Ascii.eqb c "+" then int_digits 0 false r
      else if Ascii.eqb c "-" then option_map Z.opp (int_digits 0 false r)
      else int_digits 0 false (c :: r)
  | [] => None
  end.

(** [text.split(",")] *)
Fixpoint split_comma (s : str) : list str :=
  match s with
  | [] => [[]]
  | c :: r =>
      if Ascii.eqb c "," then [] :: split_comma r
      else match split_comma r with
           | w :: ws => (c :: w) :: ws
           | [] => [[c]]
           end
  end.

(** [np.array(d).reshape(rows, cols)] of a one-dimensional array, row-major. *)
Fixpoint chunks {A} (rows cols : nat) (d : list A) : list (list A) :=
  match rows with
  | O => []
  | S r => firstn cols d :: chunks r cols (skipn cols d)
  end.

(** ** Exceptions *)

Inductive error : Type :=
| AssertionError (msg : string)
| IndexError
| ValueError
| TypeError
| KeyError
| RuntimeError
| OSError.

Definition wildtype_msg : string :=
  "The listed wildtype does not match the provided sequence".

Definition msa_msg : string :=
  "MSA Transformer only supports masked marginal strategy".

(** The specification's names for the failures of the code. *)
Definition InconsistentMutationError : error := AssertionError wildtype_msg.
Definition ShapeMismatchError : error := ValueError.

(** ** The alphabet of substitutions and the mutation enumerator *)

Definition aas : str := py "ACDEFGHIKLMNPQRSTVWY".

(** [generate_all_mutations]: the lines written to [output_file]. *)
Definition generate_all_mutations (sequence : str) : list str :=
  py "mutant" ::
  flat_map
    (fun i => map (fun aa => nth i sequence " "%char :: str_of_nat (i + 1) ++ [aa]) aas)
    (seq 0 (length sequence)).

(** [generate_user_mutations]: the lines written to [output_file]. *)
Definition generate_user_mutations (mutation : str) : list str :=
  py "mutant" :: split_comma mutation.

(** ** Exceptions as values *)

Definition opt {A} (e : error) (o : option A) : error + A :=
  match o with Some a => inr a | None => inl e end.

Definition ebind {A B} (m : error + A) (k : A -> error + B) : error + B :=
  match m with inl e => inl e | inr a => k a end.

Notation "x <~ m ; k" := (ebind m (fun x => k))
  (at level 61, m at next level, right associativity).
Notation "' pat <~ m ; k" := (ebind m (fun x => match x with pat => k end))
  (at level 61, pat pattern, m at next level, right associativity).

(** A line that [pandas] skips as blank: nothing, or spaces and tabs
    only. *)
Definition blank_line (l : str) : bool :=
  forallb (fun c => Ascii.eqb c " " || Ascii.eqb c "009") l.

(** A character that a CSV file holds as it is: no quote, no line break
    and no null. *)
Definition csv_plain (c : ascii) : bool :=
  negb (Ascii.eqb c "034" || Ascii.eqb c "010" || Ascii.eqb c "013" || Ascii.eqb c "000").

Fixpoint str_eqb (a b : str) : bool :=
  match a, b with
  | [], [] => true
  | x :: a', y :: b' => Ascii.eqb x y && str_eqb a' b'
  | _, _ => false
  end.

(** ** The sequence model adapter (the [esm] package)

    The alphabet and the pretrained model belong to the [esm] package and
    are given: [all_toks] holds the one-character tokens of the
    vocabulary, [get_idx] is total (a symbol that is not a token has the
    index of the unknown token), the batch converter puts one token per
    residue between the optional begin and end markers. *)

Record Alphabet : Type := {
  all_toks : list ascii;
  get_idx : ascii -> nat;
  mask_idx : nat;
  cls_idx : nat;
  eos_idx : nat;
  prepend_bos : bool;
  append_eos : bool
}.

(** [batch_converter([("protein1", sequence)])]: row 0 of [batch_tokens]
    for a sequence made of symbols of [all_toks].  On a sequence with
    other characters the converter of the package does something else (it
    raises [KeyError] for a symbol that it does not know); this is not
    modelled, and the properties that depend on it are stated for
    sequences over [all_toks]. *)
Definition batch_converter (alphabet : Alphabet) (sequence : str) : list nat :=
  (if prepend_bos alphabet then [cls_idx alphabet] else []) ++
  map (get_idx alphabet) sequence ++
  (if append_eos alphabet then [eos_idx alphabet] else []).

(** [batch_converter([msa])] of the alignment-aware model: the rows of
    [batch_tokens[0]]; the package refuses an empty alignment and rows of
    different lengths. *)
Definition msa_batch_converter (alphabet : Alphabet) (msa : list (str * str))
  : error + list (list nat) :=
  match msa with
  | [] => inl IndexError
  | (_, s0) :: _ =>
      if forallb (fun p => length (snd p) =? length s0) msa
      then inr (map (fun p => batch_converter alphabet (snd p)) msa)
      else inl RuntimeError
  end.

Inductive Strategy : Type := wt_marginals | pseudo_ppl | masked_marginals.

Definition Strategy_eqb (a b : Strategy) : bool :=
  match a, b with
  | wt_marginals, wt_marginals
  | pseudo_ppl, pseudo_ppl
  | masked_marginals, masked_marginals => true
  | _, _ => false
  end.

(** The command line: [--dms-mutation] and [--model-location] are [None]
    when the option is not given. *)
Record Args : Type := {
  model_location : option (list str);
  sequence : str;
  dms_mutation : option str;
  mutation_col : str;
  offset_idx : Z;
  scoring_strategy : Strategy
}.

(** The line shared by [label_row] and [compute_pppl]:
    [wt, idx, mt = row[0], int(row[1:-1]) - offset_idx, row[-1]]. *)
Definition unpack_row (row : str) (offset : Z) : error + (ascii * Z * ascii) :=
  wt <~ opt IndexError (py_index row 0);
  pos <~ opt ValueError (py_int (py_slice row (Some 1%Z) (Some (-1)%Z)));
  mt <~ opt IndexError (py_index row (-1));
  inr (wt, (pos - offset)%Z, mt).

Section Engine.

(** Tensor elements and Python floats. *)
Variable num : Type.
(** [a - b] on elements of a tensor, read back with [.item()]. *)
Variable num_sub : num -> num -> num.
(** The builtin [sum] of a list of floats. *)
Variable num_sum : list num -> num.

(** A cell of a data frame: a label or a score. *)
Inductive cell : Type :=
| CStr (s : str)
| CNum (x : num).

(** A data frame: its columns in order, each with its name. *)
Definition DataFrame : Type := list (str * list cell).

(** The frame written to [-res-in-matrix.csv]. *)
Record ScoreMatrix : Type := {
  columns : list ascii;
  index : list str;
  data : list (list cell)
}.

(** The files of a run, named by their suffix after [--output-prefix]. *)
Inductive file : Type :=
| all_mutants_txt
| user_mutants_txt
| res_in_list_csv
| res_in_matrix_csv.

Inductive content : Type :=
| Lines (l : list str)
| Table (df : DataFrame)
| Matrix (m : ScoreMatrix).

(** What a run does that can be observed: a forward pass of a
    single-sequence model on row 0 of its token batch, a forward pass of
    the alignment-aware model on the rows of its alignment, a file
    written. *)
Inductive event : Type :=
| Forward (batch_tokens : list nat)
| ForwardMSA (batch_tokens : list (list nat))
| Written (f : file) (c : content).

(** [torch.log_softmax(model(batch_tokens)["logits"], dim=-1)[0]] for each
    kind of model: positions by vocabulary, and for the alignment-aware
    model alignment rows by positions by vocabulary. *)
Inductive Model : Type :=
| ProteinBertModel (token_probs : list nat -> list (list num))
| MSATransformer (token_probs : list (list nat) -> list (list (list num))).

(** What a run finds outside the program: the pretrained models, the
    alignment that [read_msa(args.msa_path, args.msa_samples)] returns,
    and the float that [pd.read_csv] reads back from the text that
    [df.to_csv] has written for a score. *)
Record World : Type := {
  load_model_and_alphabet : str -> Model * Alphabet;
  read_msa : error + list (str * str);
  read_float : num -> num
}.

(** *** Computations: a trace of events and a result or an exception *)

Definition M (A : Type) : Type := (list event * (error + A))%type.

Definition ret {A} (a : A) : M A := ([], inr a).

Definition raise {A} (e : error) : M A := ([], inl e).

Definition bind {A B} (m : M A) (k : A -> M B) : M B :=
  match m with
  | (t, inl e) => (t, inl e)
  | (t, inr a) => let (t', r) := k a in (t ++ t', r)
  end.

Definition lift {A} (r : error + A) : M A := ([], r).

Definition emit (ev : event) : M unit := ([ev], inr tt).

Notation "x <- m ;; k" := (bind m (fun x => k))
  (at level 61, m at next level, right associativity).
Notation "' pat <- m ;; k" := (bind m (fun x => match x with pat => k end))
  (at level 61, pat pattern, m at next level, right associativity).
Notation "m ;;; k" := (bind m (fun _ => k))
  (at level 61, right associativity).

(** A [for] loop that collects one value per iteration and stops at the
    first exception. *)
Fixpoint mapM {A B} (f : A -> M B) (l : list A) : M (list B) :=
  match l with
  | [] => ret []
  | a :: r => b <- f a ;; bs <- mapM f r ;; ret (b :: bs)
  end.

Definition trace {A} (m : M A) : list event := fst m.
Definition result {A} (m : M A) : error + A := snd m.

(** The forward passes of a trace. *)
Definition is_pass (ev : event) : bool :=
  match ev with Written _ _ => false | _ => true end.

Definition passes (t : list event) : list event := filter is_pass t.

(** A trace that holds only forward passes of single-sequence models. *)
Definition only_passes (t : list event) : Prop :=
  Forall (fun ev => exists toks, ev = Forward toks) t.

(** *** Scoring one label *)

Definition label_row (row sequence : str) (token_probs : list (list num))
           (alphabet : Alphabet) (offset : Z) : error + num :=
  '(wt, idx, mt) <~ unpack_row row offset;
  c <~ opt IndexError (py_index sequence idx);
  if Ascii.eqb c wt then
    let wt_encoded := get_idx alphabet wt in
    let mt_encoded := get_idx alphabet mt in
    (* add 1 for BOS *)
    r <~ opt IndexError (py_index token_probs (1 + idx));
    a <~ opt IndexError (nth_error r mt_encoded);
    b <~ opt IndexError (nth_error r wt_encoded);
    inr (num_sub a b)
  else inl (AssertionError wildtype_msg).

(** One iteration of the loop of [compute_pppl]. *)
Definition pppl_pass (model : list nat -> list (list num)) (alphabet : Alphabet)
           (sequence : str) (batch_tokens : list nat) (i : nat) : M num :=
  batch_tokens_masked <- lift (opt IndexError (list_set batch_tokens i (mask_idx alphabet))) ;;
  emit (Forward batch_tokens_masked) ;;;
  let token_probs := model batch_tokens_masked in
  c <- lift (opt IndexError (nth_error sequence i)) ;;
  r <- lift (opt IndexError (nth_error token_probs i)) ;;
  lift (opt IndexError (nth_error r (get_idx alphabet c))).

Definition compute_pppl (row sequence : str) (model : list nat -> list (list num))
           (alphabet : Alphabet) (offset : Z) : M num :=
  '(wt, idx, mt) <- lift (unpack_row row offset) ;;
  c <- lift (opt IndexError (py_index sequence idx)) ;;
  if Ascii.eqb c wt then
    (* modify the sequence *)
    let sequence :=
      py_slice sequence None (Some idx) ++ [mt] ++ py_slice sequence (Some (idx + 1)%Z) None in
    (* encode the sequence *)
    let batch_tokens := batch_converter alphabet sequence in
    (* compute probabilities at each position *)
    log_probs <- mapM (pppl_pass model alphabet sequence batch_tokens)
                      (seq 1 (length sequence - 1 - 1)) ;;
    ret (num_sum log_probs)
  else raise (AssertionError wildtype_msg).

(** *** Data frames *)

Fixpoint df_get (df : DataFrame) (name : str) : option (list cell) :=
  match df with
  | [] => None
  | (n, c) :: r => if str_eqb n name then Some c else df_get r name
  end.

(** [df[name] = col]: an existing column is replaced where it stands, a
    new one is appended. *)
Fixpoint df_set (df : DataFrame) (name : str) (col : list cell) : DataFrame :=
  match df with
  | [] => [(name, col)]
  | (n, c) :: r => if str_eqb n name then (n, col) :: r else (n, c) :: df_set r name col
  end.

Definition nrows (df : DataFrame) : nat :=
  match df with
  | [] => 0
  | (_, c) :: _ => length c
  end.

(** [pd.read_csv(args.dms_input)] on the file of labels just written: the
    first line names the only column and every later line is one row, kept
    as a string, except the blank lines, which are skipped.  This is what
    [pandas] does with labels made of letters and digits; labels with
    quotes or line breaks, and labels it would read as numbers or as
    missing values, are outside the model. *)
Definition read_csv (lines : list str) : DataFrame :=
  match lines with
  | [] => []
  | header :: rows =>
      [(header, map CStr (filter (fun l => negb (blank_line l)) rows))]
  end.

(** A cell read back from a CSV file: a score is the float that
    [pd.read_csv] reads from the text that [df.to_csv] has written. *)
Definition read_cell (w : World) (c : cell) : cell :=
  match c with
  | CStr s => CStr s
  | CNum x => CNum (read_float w x)
  end.

(** [pd.read_csv] on the table that [df.to_csv(..., index=False)] has just
    written: the columns and the rows of the table, each cell read back.
    The names of the columns, which [plot_esm_scan] does not use, are
    kept. *)
Definition read_table (w : World) (df : DataFrame) : DataFrame :=
  map (fun nc => (fst nc, map (read_cell w) (snd nc))) df.

(** [df.apply(lambda row: f(row[col]), axis=1)]: the rows in order, none
    for a frame without rows; a missing column is a [KeyError] at the first
    row, a cell that is not a string is a [TypeError] at [row[0]]. *)
Definition apply_rows (df : DataFrame) (col : str) (f : str -> M num) : M (list cell) :=
  match df_get df col with
  | Some cells =>
      mapM (fun c => match c with
                     | CStr row => x <- f row ;; ret (CNum x)
                     | CNum _ => raise TypeError
                     end) cells
  | None => if nrows df =? 0 then ret [] else raise KeyError
  end.

(** *** The strategies that mask one position per pass *)

(** One iteration of the masked-marginal loop of [main]. *)
Definition masked_pass (model : list nat -> list (list num)) (alphabet : Alphabet)
           (batch_tokens : list nat) (i : nat) : M (list num) :=
  batch_tokens_masked <- lift (opt IndexError (list_set batch_tokens i (mask_idx alphabet))) ;;
  emit (Forward batch_tokens_masked) ;;;
  let token_probs := model batch_tokens_masked in
  lift (opt IndexError (nth_error token_probs i)).

(** One iteration of the loop of [main] for the alignment-aware model:
    the mask goes on the first row of the alignment and the row of the
    first sequence is read back. *)
Definition msa_masked_pass (model : list (list nat) -> list (list (list num)))
           (alphabet : Alphabet) (batch_tokens : list (list nat)) (i : nat) : M (list num) :=
  row0 <- lift (opt IndexError (nth_error batch_tokens 0)) ;;
  masked0 <- lift (opt IndexError (list_set row0 i (mask_idx alphabet))) ;;
  let batch_tokens_masked := masked0 :: tl batch_tokens in
  emit (ForwardMSA batch_tokens_masked) ;;;
  let token_probs := model batch_tokens_masked in
  rows <- lift (opt IndexError (nth_error token_probs 0)) ;;
  lift (opt IndexError (nth_error rows i)).

(** *** The result assembler *)

(** [plot_esm_scan]: [df] is the table read back from
    [-res-in-list.csv].  The matrix file is written first; then come the
    figures, which need the smallest score of the matrix: a matrix without
    rows has none ([ValueError]).  The figures of any other matrix are not
    modelled. *)
Definition plot_esm_scan (seq : str) (df : DataFrame) : M unit :=
  '(_, col) <- lift (opt IndexError (nth_error df 1)) ;;
  d <- (if length col =? length seq * 20
        then ret (chunks (length seq) 20 col)
        else raise ValueError) ;;
  let df2 := {| columns := aas;
                index := map (fun x => nth x seq " "%char :: str_of_nat (x + 1))
                             (List.seq 0 (length seq));
                data := d |} in
  emit (Written res_in_matrix_csv (Matrix df2)) ;;;
  (* plot matrix as heatmap *)
  if length seq =? 0 then raise ValueError else ret tt.

(** [plot_clinvar]: the two columns it reads; the figure is not
    modelled. *)
Definition plot_clinvar (df : DataFrame) : M unit :=
  _ <- lift (opt KeyError (df_get df (py "/content/esm1b_t33_650M_UR50S.pt"))) ;;
  _ <- lift (opt KeyError (df_get df (py "mutant"))) ;;
  ret tt.

(** *** The run *)

(** The body of the loop of [main] over [args.model_location]. *)
Definition score_model (w : World) (args : Args) (df : DataFrame) (loc : str)
  : M DataFrame :=
  let '(model, alphabet) := load_model_and_alphabet w loc in
  match model with
  | MSATransformer msa_model =>
      msa <- lift (read_msa w) ;;
      (if Strategy_eqb (scoring_strategy args) masked_marginals
       then ret tt else raise (AssertionError msa_msg)) ;;;
      batch_tokens <- lift (msa_batch_converter alphabet msa) ;;
      token_probs <- mapM (msa_masked_pass msa_model alphabet batch_tokens)
                          (List.seq 0 (length (hd [] batch_tokens))) ;;
      col <- apply_rows df (mutation_col args)
               (fun row => lift (label_row row (sequence args) token_probs
                                           alphabet (offset_idx args))) ;;
      ret (df_set df loc col)
  | ProteinBertModel model =>
      let batch_tokens := batch_converter alphabet (sequence args) in
      match scoring_strategy args with
      | wt_marginals =>
          emit (Forward batch_tokens) ;;;
          let token_probs := model batch_tokens in
          col <- apply_rows df (mutation_col args)
                   (fun row => lift (label_row row (sequence args) token_probs
                                               alphabet (offset_idx args))) ;;
          ret (df_set df loc col)
      | masked_marginals =>
          token_probs <- mapM (masked_pass model alphabet batch_tokens)
                              (List.seq 0 (length batch_tokens)) ;;
          col <- apply_rows df (mutation_col args)
                   (fun row => lift (label_row row (sequence args) token_probs
                                               alphabet (offset_idx args))) ;;
          ret (df_set df loc col)
      | pseudo_ppl =>
          col <- apply_rows df (mutation_col args)
                   (fun row => compute_pppl row (sequence args) model
                                            alphabet (offset_idx args)) ;;
          ret (df_set df loc col)
      end
  end.

Fixpoint score_models (w : World) (args : Args) (df : DataFrame) (locs : list str)
  : M DataFrame :=
  match locs with
  | [] => ret df
  | loc :: r => df' <- score_model w args df loc ;; score_models w args df' r
  end.

Definition main (w : World) (args : Args) : M unit :=
  match dms_mutation args with
  | None => raise TypeError
  | Some dms =>
      lines <- (if length dms =? 0
                then (* generate all possible mutants *)
                  let l := generate_all_mutations (sequence args) in
                  emit (Written all_mutants_txt (Lines l)) ;;; ret l
                else
                  let l := generate_user_mutations dms in
                  emit (Written user_mutants_txt (Lines l)) ;;; ret l) ;;
      let df := read_csv lines in
      match model_location args with
      | None => raise TypeError
      | Some locs =>
          df <- score_models w args df locs ;;
          emit (Written res_in_list_csv (Table df)) ;;;
          if length dms =? 0
          then plot_esm_scan (sequence args) (read_table w df)
          else plot_clinvar df
      end
  end.

End Engine.

Arguments CStr {num} s.
Arguments Forward {num} batch_tokens.
Arguments ForwardMSA {num} batch_tokens.
Arguments Written {num} f c.
Arguments Lines {num} l.
Arguments ret {num A} a.
Arguments raise {num A} e.
Arguments lift {num A} r.

(** ** IEEE 754 binary32 tensors *)

Definition f32 : Type := spec_float.

Definition f32_sub : f32 -> f32 -> f32 := SFsub 24 128.

Definition f32_zero : f32 := S754_zero false.

Definition f32_of_Z (z : Z) : f32 := binary_normalize 24 128 z 0 false.

(** Neither an infinity nor a NaN. *)
Definition is_finite (x : f32) : bool :=
  match x with
  | S754_zero _ | S754_finite _ _ _ => true
  | S754_infinity _ | S754_nan => false
  end.

(** [sum] as the additions of binary64 from 0, left to right. *)
Definition f64_sum (l : list spec_float) : spec_float :=
  fold_left (SFadd 53 1024) l (S754_zero false).

(** ** A small world to run the program in

    The vocabulary of ESM-1b (begin and end markers on, 33 tokens) and
    models whose log-probabilities are small integers that depend on the
    token at the position, so that masking a position changes its row. *)

Definition esm1b_idx (c : ascii) : nat :=
  match find (fun p => Ascii.eqb (fst p) c)
             (combine (py "LAGVSERTIDPKQNFYMHWCXBUZO.-") (seq 4 27)) with
  | Some (_, i) => i
  | None => 3
  end.

Definition esm1b_toks : list ascii := py "LAGVSERTIDPKQNFYMHWCXBUZO.-".

Definition esm1b_alphabet : Alphabet :=
  {| all_toks := esm1b_toks;
     get_idx := esm1b_idx; mask_idx := 32; cls_idx := 0; eos_idx := 2;
     prepend_bos := true; append_eos := true |}.

Definition toy_probs (bias : nat) (batch_tokens : list nat) : list (list f32) :=
  map (fun i => map (fun k => f32_of_Z (- Z.of_nat (1 + bias + k + nth i batch_tokens 0)))
                    (seq 0 33))
      (seq 0 (length batch_tokens)).

(** A model whose log-probabilities fall three times as fast along the
    vocabulary, so that its scores differ from those of [toy_probs]. *)
Definition steep_probs (batch_tokens : list nat) : list (list f32) :=
  map (fun i => map (fun k => f32_of_Z (- Z.of_nat (1 + 3 * k + nth i batch_tokens 0)))
                    (seq 0 33))
      (seq 0 (length batch_tokens)).

Definition toy_msa_probs (batch_tokens : list (list nat)) : list (list (list f32)) :=
  map (toy_probs 0) batch_tokens.

(** The log-probabilities of a model that is certain of leucine at every
    position of a three-residue sequence: 0 for [L] (token 4) and minus
    infinity for every other token. *)
Definition certain_probs : list (list f32) :=
  map (fun _ => map (fun k => if k =? 4 then f32_zero else S754_infinity true) (seq 0 33))
      (seq 0 5).

(** The alphabet of the alignment-aware model has no end marker. *)
Definition msa_alphabet : Alphabet :=
  {| all_toks := esm1b_toks;
     get_idx := esm1b_idx; mask_idx := 32; cls_idx := 0; eos_idx := 2;
     prepend_bos := true; append_eos := false |}.

(** Models are found by name: [msa] is the alignment-aware one, [m2] a
    second single-sequence model with other scores, any other name the
    first.  A score is read back from the table as it was written. *)
Definition toy_world : World f32 :=
  {| load_model_and_alphabet := fun loc =>
       if str_eqb loc (py "msa") then (MSATransformer toy_msa_probs, msa_alphabet)
       else if str_eqb loc (py "m2") then (ProteinBertModel steep_probs, esm1b_alphabet)
       else (ProteinBertModel (toy_probs 0), esm1b_alphabet);
     read_msa := inr [(py "query", py "AC"); (py "hit", py "AD")];
     read_float := fun x => x |}.

(** The value of [--dms-mutation] that asks for the exhaustive scan. *)
Definition all_mutations : string := EmptyString.

Definition toy_args (locs : list string) (sequence mutations : string) (s : Strategy) : Args :=
  {| model_location := Some (map py locs);
     sequence := py sequence;
     dms_mutation := Some (py mutations);
     mutation_col := py "mutant";
     offset_idx := 1;
     scoring_strategy := s |}.

Definition toy_main (locs : list string) (sequence mutations : string) (s : Strategy)
  : M f32 unit :=
  main f32_sub f64_sum toy_world (toy_args locs sequence mutations s).

(** The table of an exhaustive scan of [S] in which the score of row [k]
    is the number [k]. *)
Definition numbered_table (S : str) : DataFrame f32 :=
  [(py "mutant", map CStr (tl (generate_all_mutations S)));
   (py "m1", map (fun k => CNum (f32_of_Z (Z.of_nat k))) (seq 0 (20 * length S)))].

(** ** Joining labels *)

(** [",".join(pieces)] *)
Fixpoint join_comma (pieces : list str) : str :=
  match pieces with
  | [] => []
  | [w] => w
  | w :: ws => w ++ ","%char :: join_comma ws
  end.

(** ** Reading an alignment *)

Module Alignment.

(** The keys of [deletekeys]: [string.ascii_lowercase], ["."] and ["*"]. *)
Definition deleted (c : ascii) : bool :=
  ascii_in 97 122 c || Ascii.eqb c "." || Ascii.eqb c "*".

(** [remove_insertions]: [str.translate] with a table that maps every key
    of [deletekeys] to [None] deletes these characters and keeps the
    others. *)
Definition remove_insertions (sequence : str) : str :=
  filter (fun c => negb (deleted c)) sequence.

(** [read_msa]: [records] are the descriptions and sequences that
    [SeqIO.parse(filename, "fasta")] yields; [itertools.islice] keeps the
    first [nseq] of them and refuses an [nseq] that is negative or above
    [sys.maxsize] (of a 64-bit interpreter). *)
Definition read_msa (records : list (str * str)) (nseq : Z) : error + list (str * str) :=
  if ((nseq <? 0) || (2 ^ 63 - 1 <? nseq))%Z then inl ValueError
  else inr (map (fun record => (fst record, remove_insertions (snd record)))
                (firstn (Z.to_nat nseq) records)).

End Alignment.

(** ** Tactics for given sequences and labels *)

(** A sequence over the 20 letters, and labels without quotes and line
    breaks, for a sequence and labels that are given. *)
Ltac over_letters :=
  let H := fresh in
  apply Forall_forall; intros ? H; vm_compute in H |- *; clear - H; tauto.

Ltac plain_labels :=
  apply Forall_forall; refine (proj1 (forallb_forall csv_plain _) _);
  vm_compute; reflexivity.

(** * Properties *)

(** ** Lists, indices and chunks *)

Lemma nth_error_flat_map_block A B (f : A -> list B) (k : nat) (l : list A) (i j : nat) :
  (forall a, length (f a) = k) -> j < k ->
  nth_error (flat_map f l) (i * k + j) =
  match nth_error l i with
  | Some a => nth_error (f a) j
  | None => None
  end.
Proof.
  intros Hk Hj. revert i. induction l as [|a l IH]; intros i.
  - simpl. destruct (i * k + j), i; reflexivity.
  - destruct i as [|i]; simpl.
    + rewrite nth_error_app1 by (rewrite Hk; exact Hj). reflexivity.
    + rewrite nth_error_app2 by (rewrite Hk; lia).
      rewrite Hk. replace (k + i * k + j - k) with (i * k + j) by lia. apply IH.
Qed.

Lemma length_flat_map_block A B (f : A -> list B) (k : nat) (l : list A) :
  (forall a, length (f a) = k) -> length (flat_map f l) = length l * k.
Proof.
  intros Hk. induction l as [|a l IH]; simpl; [reflexivity|].
  rewrite length_app, Hk, IH. reflexivity.
Qed.

Lemma app_last_two A (tm : list A) (a b : A) (l : list A) :
  l = tm ++ [a; b] ->
  nth_error l (length l - 2) = Some a /\ nth_error l (length l - 1) = Some b.
Proof.
  intros ->. rewrite length_app. cbn [length].
  split; rewrite nth_error_app2 by lia.
  - now replace (length tm + 2 - 2 - length tm) with 0 by lia.
  - now replace (length tm + 2 - 1 - length tm) with 1 by lia.
Qed.

Lemma length_aas : length aas = 20.
Proof. reflexivity. Qed.

(** ** The mutation enumerator *)

Lemma generate_all_mutations_length (S : str) :
  length (tl (generate_all_mutations S)) = length S * 20.
Proof.
  unfold generate_all_mutations. cbn [tl].
  rewrite length_flat_map_block with (k := 20).
  - now rewrite length_seq.
  - intros a. now rewrite length_map.
Qed.

Lemma generate_all_mutations_nth (S : str) (i j : nat) :
  i < length S -> j < 20 ->
  nth_error (tl (generate_all_mutations S)) (i * 20 + j) =
  Some (nth i S " "%char :: str_of_nat (i + 1) ++ [nth j aas " "%char]).
Proof.
  intros Hi Hj. unfold generate_all_mutations. cbn [tl].
  rewrite nth_error_flat_map_block with (k := 20); try assumption.
  - rewrite nth_error_seq. destruct (Nat.ltb_spec i (length S)); [|lia].
    cbn [Nat.add]. rewrite nth_error_map.
    rewrite (nth_error_nth' aas " "%char) by (rewrite length_aas; exact Hj).
    reflexivity.
  - intros a. now rewrite length_map.
Qed.

(** C3. [generate_all_mutations] writes the header and then exactly
    [len(S) * 20] labels; the label of 0-based position [i] and of the
    [j]-th letter of the alphabet stands at index [i * 20 + j]
    (position-major, then alphabet order) and is [S[i] + str(i+1) + aas[j]];
    the labels of position [i] include the no-op one whose mutant symbol is
    [S[i]] itself, whenever [S[i]] is one of the 20 letters. *)
Theorem generate_all_mutations_labels (S : str) :
  hd_error (generate_all_mutations S) = Some (py "mutant") /\
  length (tl (generate_all_mutations S)) = length S * 20 /\
  (forall i j, i < length S -> j < 20 ->
     nth_error (tl (generate_all_mutations S)) (i * 20 + j) =
     Some (nth i S " "%char :: str_of_nat (i + 1) ++ [nth j aas " "%char])) /\
  (forall i, i < length S -> In (nth i S " "%char) aas ->
     In (nth i S " "%char :: str_of_nat (i + 1) ++ [nth i S " "%char])
        (tl (generate_all_mutations S))).
Proof.
  split; [reflexivity|]. split; [apply generate_all_mutations_length|].
  split; [intros i j; apply generate_all_mutations_nth|].
  intros i Hi Hin. destruct (In_nth _ _ " "%char Hin) as [j [Hj Hnth]].
  rewrite length_aas in Hj. rewrite <- Hnth at 2.
  eapply nth_error_In. apply generate_all_mutations_nth; assumption.
Qed.

Lemma generate_all_mutations_labels_witness :
  nth_error (tl (generate_all_mutations (py "ACD"))) (1 * 20 + 2) = Some (py "C2D") /\
  In (py "D3D") (tl (generate_all_mutations (py "ACD"))).
Proof.
  destruct (generate_all_mutations_labels (py "ACD")) as [_ [_ [Hnth Hnoop]]].
  split.
  - apply (Hnth 1 2); simpl; lia.
  - apply (Hnoop 2); [simpl; lia | vm_compute; tauto].
Defined.

Lemma length_chunks A (rows cols : nat) (d : list A) :
  length (chunks rows cols d) = rows.
Proof.
  revert d. induction rows as [|r IH]; intros d; simpl; [reflexivity|].
  now rewrite IH.
Qed.

Lemma nth_error_chunks A (rows cols : nat) (d : list A) (r : nat) :
  r < rows ->
  nth_error (chunks rows cols d) r = Some (firstn cols (skipn (r * cols) d)).
Proof.
  revert d r. induction rows as [|n IH]; intros d r Hr; [lia|].
  destruct r as [|r]; simpl; [reflexivity|].
  rewrite IH by lia. now rewrite skipn_skipn, Nat.add_comm.
Qed.

Lemma chunks_row_length A (rows cols : nat) (d : list A) (row : list A) :
  length d = rows * cols -> In row (chunks rows cols d) -> length row = cols.
Proof.
  revert d. induction rows as [|n IH]; intros d Hd Hin; simpl in *; [contradiction|].
  destruct Hin as [<- | Hin].
  - rewrite length_firstn. lia.
  - apply (IH (skipn cols d)); [|exact Hin]. rewrite length_skipn. lia.
Qed.

Lemma chunks_entry A (rows cols : nat) (d : list A) (r j : nat) :
  r < rows -> j < cols ->
  exists row, nth_error (chunks rows cols d) r = Some row /\
              nth_error row j = nth_error d (r * cols + j).
Proof.
  intros Hr Hj. eexists. split; [apply nth_error_chunks; exact Hr|].
  rewrite nth_error_firstn. destruct (Nat.ltb_spec j cols); [|lia].
  apply nth_error_skipn.
Qed.

(** ** Decimal numerals *)

Lemma to_uint_nonnil (n : nat) : Nat.to_uint n <> Decimal.Nil.
Proof.
  intros H. pose proof (DecimalNat.Unsigned.of_to n) as Hn. rewrite H in Hn.
  cbn in Hn. subst n. discriminate H.
Qed.

Lemma uint_digits (d : Decimal.uint) :
  Forall (fun c => is_digit c = true) (py (NilEmpty.string_of_uint d)).
Proof. induction d; cbn; constructor; (reflexivity || assumption). Qed.

Lemma int_digits_uint (d : Decimal.uint) (acc : nat) :
  int_digits (Z.of_nat acc) true (py (NilEmpty.string_of_uint d)) =
  Some (Z.of_nat (Nat.of_uint_acc d acc)).
Proof.
  revert acc. induction d; intros acc; [reflexivity|..];
    cbn [NilEmpty.string_of_uint py list_ascii_of_string int_digits Nat.of_uint_acc];
    (match goal with
     | |- (if is_digit ?c then _ else _) = _ => change (is_digit c) with true; cbv iota
     end);
    rewrite <- IHd; f_equal; rewrite ?Nat2Z.inj_succ, Nat.tail_mul_spec, Nat2Z.inj_mul;
    unfold digit_val; cbn; lia.
Qed.

Lemma int_digits_uint_start (d : Decimal.uint) (acc : nat) :
  d <> Decimal.Nil ->
  int_digits (Z.of_nat acc) false (py (NilEmpty.string_of_uint d)) =
  Some (Z.of_nat (Nat.of_uint_acc d acc)).
Proof.
  intros Hd. destruct d; [contradiction|..];
    cbn [NilEmpty.string_of_uint py list_ascii_of_string int_digits Nat.of_uint_acc];
    (match goal with
     | |- (if is_digit ?c then _ else _) = _ => change (is_digit c) with true; cbv iota
     end);
    rewrite <- int_digits_uint; f_equal;
    rewrite ?Nat2Z.inj_succ, Nat.tail_mul_spec, Nat2Z.inj_mul;
    unfold digit_val; cbn; lia.
Qed.

Lemma digit_not_space (c : ascii) : is_digit c = true -> is_space c = false.
Proof.
  unfold is_digit, is_space, ascii_in. intros H.
  apply andb_prop in H. destruct H as [H1 H2].
  apply Nat.leb_le in H1. apply Nat.leb_le in H2.
  repeat match goal with
         | |- context [?a <=? ?b] => destruct (Nat.leb_spec a b)
         end; try reflexivity; lia.
Qed.

Lemma lstrip_digits (s : str) : Forall (fun c => is_digit c = true) s -> lstrip s = s.
Proof.
  intros H. destruct s as [|c s]; [reflexivity|].
  inversion H as [|? ? Hc _]; subst. cbn. now rewrite digit_not_space.
Qed.

Lemma py_int_digits (s : str) :
  Forall (fun c => is_digit c = true) s -> py_int s = int_digits 0 false s.
Proof.
  intros H. unfold py_int, strip.
  rewrite (lstrip_digits H), (lstrip_digits (Forall_rev H)), rev_involutive.
  destruct s as [|c s]; [reflexivity|].
  inversion H as [|? ? Hc _]; subst.
  destruct (Ascii.eqb_spec c "+") as [->|_]; [discriminate Hc|].
  destruct (Ascii.eqb_spec c "-") as [->|_]; [discriminate Hc|]. reflexivity.
Qed.

Lemma py_int_str_of_nat (n : nat) : py_int (str_of_nat n) = Some (Z.of_nat n).
Proof.
  unfold str_of_nat, NilZero.string_of_uint.
  pose proof (to_uint_nonnil n) as Hnil.
  pose proof (DecimalNat.Unsigned.of_to n) as Hn. unfold Nat.of_uint in Hn.
  assert (Hs : py (match Nat.to_uint n with
                   | Decimal.Nil => "0"%string
                   | _ => NilEmpty.string_of_uint (Nat.to_uint n)
                   end) = py (NilEmpty.string_of_uint (Nat.to_uint n)))
    by (destruct (Nat.to_uint n); [contradiction|reflexivity..]).
  rewrite Hs, (py_int_digits (uint_digits _)).
  change 0%Z with (Z.of_nat 0). rewrite int_digits_uint_start by exact Hnil.
  now rewrite Hn.
Qed.

Lemma str_of_nat_uint (n : nat) :
  str_of_nat n = py (NilEmpty.string_of_uint (Nat.to_uint n)).
Proof.
  unfold str_of_nat, NilZero.string_of_uint.
  pose proof (to_uint_nonnil n) as Hnil.
  destruct (Nat.to_uint n); [contradiction|reflexivity..].
Qed.

Lemma str_of_nat_digits (n : nat) : Forall (fun c => is_digit c = true) (str_of_nat n).
Proof. rewrite str_of_nat_uint. apply uint_digits. Qed.

Lemma nzhead_no_zero (d d' : Decimal.uint) : Decimal.nzhead d <> Decimal.D0 d'.
Proof. induction d; cbn; try discriminate. exact IHd. Qed.

(** The decimal numeral of a positive number does not start with a
    zero. *)
Lemma str_of_nat_head (n : nat) : 0 < n -> hd_error (str_of_nat n) <> Some "0"%char.
Proof.
  intros Hn. rewrite str_of_nat_uint.
  pose proof (DecimalNat.Unsigned.to_of (Nat.to_uint n)) as Hu.
  rewrite DecimalNat.Unsigned.of_to in Hu.
  destruct (Nat.to_uint n) as [|d|d|d|d|d|d|d|d|d|d] eqn:E; cbn; try discriminate.
  exfalso. unfold Decimal.unorm in Hu.
  destruct (Decimal.nzhead (Decimal.D0 d)) eqn:Ez;
    try (symmetry in Hu; rewrite <- Ez in Hu; exact (nzhead_no_zero _ Hu)).
  injection Hu as ->.
  pose proof (DecimalNat.Unsigned.of_to n) as Hn'. rewrite E in Hn'. cbn in Hn'. lia.
Qed.

(** ** The result assembler *)

Section Assembler.

Variable num : Type.

(** What [plot_esm_scan] does with a score column of [len(S) * 20]
    rows. *)
Lemma plot_esm_scan_run (S : str) (df : DataFrame num) (name : str)
      (col : list (cell num)) :
  nth_error df 1 = Some (name, col) ->
  length col = length S * 20 ->
  plot_esm_scan S df =
  ([Written res_in_matrix_csv
      (Matrix {| columns := aas;
                 index := map (fun x => nth x S " "%char :: str_of_nat (x + 1))
                              (seq 0 (length S));
                 data := chunks (length S) 20 col |})],
   if length S =? 0 then inl ValueError else inr tt).
Proof.
  intros Hcol Hlen. unfold plot_esm_scan. rewrite Hcol. cbn.
  replace (length col =? length S * 20) with true
    by (symmetry; apply Nat.eqb_eq; lia).
  cbn. destruct (length S =? 0); reflexivity.
Qed.

(** C5. When the table read back has a score column (its second column)
    of [20 * L] rows for a sequence [S] of length [L], [plot_esm_scan]
    writes one matrix and nothing else: it has [L] rows of 20 entries, the
    20 letters of the alphabet in their fixed order as columns, and entry
    [(r, j)] is row [20 * r + j] of the score column.  The label of row
    [r] is [S[r]] followed by the decimal numeral of [r + 1]: digits only,
    no zero in front, read back as [r + 1] by [int].  After the matrix
    come the figures, which fail for the empty sequence only. *)
Theorem plot_esm_scan_matrix (S : str) (df : DataFrame num) (name : str)
        (col : list (cell num)) :
  nth_error df 1 = Some (name, col) ->
  length col = 20 * length S ->
  exists m : ScoreMatrix num,
    trace (plot_esm_scan S df) = [Written res_in_matrix_csv (Matrix m)] /\
    result (plot_esm_scan S df) = (if length S =? 0 then inl ValueError else inr tt) /\
    length (data m) = length S /\
    (forall row, In row (data m) -> length row = 20) /\
    columns m = aas /\
    length (index m) = length S /\
    (forall r, r < length S ->
       exists digits,
         nth_error (index m) r = Some (nth r S " "%char :: digits) /\
         digits = str_of_nat (r + 1) /\
         Forall (fun c => is_digit c = true) digits /\
         hd_error digits <> Some "0"%char /\
         py_int digits = Some (Z.of_nat (r + 1))) /\
    (forall r j, r < length S -> j < 20 ->
       exists row, nth_error (data m) r = Some row /\
                   nth_error row j = nth_error col (r * 20 + j)).
Proof.
  intros Hcol Hlen.
  rewrite (plot_esm_scan_run S df Hcol) by lia.
  eexists. split; [reflexivity|]. split; [reflexivity|]. cbn [data index columns].
  split; [apply length_chunks|].
  split; [intros row; apply chunks_row_length; lia|].
  split; [reflexivity|].
  split; [now rewrite length_map, length_seq|].
  split.
  - intros r Hr. exists (str_of_nat (r + 1)).
    split.
    { rewrite nth_error_map, nth_error_seq.
      destruct (Nat.ltb_spec r (length S)); [reflexivity | lia]. }
    split; [reflexivity|].
    split; [apply str_of_nat_digits|].
    split; [apply str_of_nat_head; lia|].
    apply py_int_str_of_nat.
  - intros r j Hr Hj. apply chunks_entry; assumption.
Qed.

(** [reshape] refuses a score column whose number of rows is not
    [len(S) * 20], before anything is written. *)
Lemma plot_esm_scan_rejects (S : str) (df : DataFrame num) (name : str)
      (col : list (cell num)) :
  nth_error df 1 = Some (name, col) ->
  length col mod 20 <> 0 \/ length col <> length S * 20 ->
  plot_esm_scan S df = ([], inl ShapeMismatchError).
Proof.
  intros Hcol Hbad. unfold plot_esm_scan. rewrite Hcol. cbn.
  destruct (Nat.eqb_spec (length col) (length S * 20)) as [E|_]; [|reflexivity].
  exfalso. destruct Hbad as [Hmod|Hne]; [|contradiction].
  apply Hmod. rewrite E. apply Nat.Div0.mod_mul.
Qed.

End Assembler.

(** ** Traces and results *)

Section Traces.

Variable num : Type.

Lemma result_bind A B (m : M num A) (k : A -> M num B) :
  result (bind m k) =
  match result m with inl e => inl e | inr a => result (k a) end.
Proof.
  destruct m as [t [e|a]]; cbn; [reflexivity|]. now destruct (k a).
Qed.

Lemma trace_bind A B (m : M num A) (k : A -> M num B) :
  trace (bind m k) =
  trace m ++ match result m with inl _ => [] | inr a => trace (k a) end.
Proof.
  destruct m as [t [e|a]]; cbn; [now rewrite app_nil_r|]. now destruct (k a).
Qed.

Lemma result_mapM_error A B (P : error -> Prop) (f : A -> M num B) (l : list A) (e : error) :
  (forall a e', result (f a) = inl e' -> P e') ->
  result (mapM f l) = inl e -> P e.
Proof.
  intros Hf. induction l as [|a l IH]; cbn [mapM]; [discriminate|].
  rewrite result_bind. destruct (result (f a)) as [e'|b] eqn:Ea.
  - intros [= <-]. eapply Hf, Ea.
  - rewrite result_bind. destruct (result (mapM f l)); [|discriminate].
    intros [= <-]. now apply IH.
Qed.

Lemma trace_mapM_Forall A B (P : event num -> Prop) (f : A -> M num B) (l : list A) :
  (forall a, Forall P (trace (f a))) -> Forall P (trace (mapM f l)).
Proof.
  intros Hf. induction l as [|a l IH]; cbn [mapM]; [constructor|].
  rewrite trace_bind. apply Forall_app. split; [apply Hf|].
  destruct (result (f a)); [constructor|].
  rewrite trace_bind. apply Forall_app. split; [exact IH|].
  destruct (result (mapM f l)); constructor.
Qed.

Lemma trace_mapM_length A B (f : A -> M num B) (l : list A) :
  (forall a, length (trace (f a)) <= 1) -> length (trace (mapM f l)) <= length l.
Proof.
  intros Hf. induction l as [|a l IH]; cbn [mapM]; [cbn; lia|].
  rewrite trace_bind, length_app. specialize (Hf a).
  destruct (result (f a)); cbn [length]; [lia|].
  rewrite trace_bind, length_app.
  destruct (result (mapM f l)); cbn [length ret trace fst]; lia.
Qed.

Lemma trace_mapM_pure A B (f : A -> M num B) (l : list A) :
  (forall a, trace (f a) = []) -> trace (mapM f l) = [].
Proof.
  intros Hf. induction l as [|a l IH]; cbn [mapM]; [reflexivity|].
  rewrite trace_bind, Hf. destruct (result (f a)); [reflexivity|].
  rewrite trace_bind, IH. now destruct (result (mapM f l)).
Qed.

End Traces.

(** ** Python indices *)

Lemma py_index_nonneg A (l : list A) (i : Z) :
  (0 <= i)%Z -> py_index l i = nth_error l (Z.to_nat i).
Proof. intros H. unfold py_index. destruct (Z.leb_spec 0 i); [reflexivity|lia]. Qed.

Lemma py_index_from_end A (l : list A) (i : Z) :
  (- Z.of_nat (length l) <= i < 0)%Z ->
  py_index l i = nth_error l (Z.to_nat (Z.of_nat (length l) + i)) /\
  exists c, py_index l i = Some c.
Proof.
  intros H. unfold py_index. destruct (Z.leb_spec 0 i); [lia|].
  destruct (Z.leb_spec (- Z.of_nat (length l)) i); [|lia].
  split; [reflexivity|].
  destruct (nth_error l (Z.to_nat (Z.of_nat (length l) + i))) eqn:E; [now eexists|].
  apply nth_error_None in E. lia.
Qed.

Lemma ascii_eqb_false (a b : ascii) : a <> b -> Ascii.eqb a b = false.
Proof. intros H. destruct (Ascii.eqb_spec a b); [contradiction|reflexivity]. Qed.

(** ** Scoring one label *)

Section Scoring.

Variable num : Type.
Variable num_sub : num -> num -> num.
Variable num_sum : list num -> num.

Lemma label_row_checked (row S : str) (tp : list (list num)) (alphabet : Alphabet)
      (offset : Z) (wt mt : ascii) (idx : Z) :
  unpack_row row offset = inr (wt, idx, mt) ->
  label_row num_sub row S tp alphabet offset =
  match py_index S idx with
  | None => inl IndexError
  | Some c =>
      if Ascii.eqb c wt then
        match py_index tp (1 + idx) with
        | None => inl IndexError
        | Some r =>
            match nth_error r (get_idx alphabet mt), nth_error r (get_idx alphabet wt) with
            | Some a, Some b => inr (num_sub a b)
            | _, _ => inl IndexError
            end
        end
      else inl InconsistentMutationError
  end.
Proof.
  intros Hrow. unfold label_row, ebind, opt. rewrite Hrow.
  destruct (py_index S idx) as [c|]; [|reflexivity].
  destruct (Ascii.eqb c wt); [|reflexivity].
  destruct (py_index tp (1 + idx)) as [r|]; [|reflexivity].
  destruct (nth_error r (get_idx alphabet mt)); [|reflexivity].
  destruct (nth_error r (get_idx alphabet wt)); reflexivity.
Qed.

Lemma pppl_pass_error (model : list nat -> list (list num)) (alphabet : Alphabet)
      (S : str) (toks : list nat) (i : nat) (e : error) :
  result (pppl_pass model alphabet S toks i) = inl e -> e = IndexError.
Proof.
  unfold pppl_pass. rewrite result_bind. cbn.
  destruct (list_set toks i (mask_idx alphabet)); cbn; [|congruence].
  destruct (nth_error S i); cbn; [|congruence].
  destruct (nth_error (model _) i) as [r|]; cbn; [|congruence].
  destruct (nth_error r _); cbn; congruence.
Qed.

Lemma pppl_pass_trace (model : list nat -> list (list num)) (alphabet : Alphabet)
      (S : str) (toks : list nat) (i : nat) :
  length (trace (pppl_pass model alphabet S toks i)) <= 1.
Proof.
  unfold pppl_pass.
  destruct (list_set toks i (mask_idx alphabet)); cbn; [|lia].
  destruct (nth_error S i); cbn; [|lia].
  destruct (nth_error (model _) i) as [r|]; cbn; lia.
Qed.

Lemma compute_pppl_checked (row S : str) (model : list nat -> list (list num))
      (alphabet : Alphabet) (offset : Z) (wt mt : ascii) (idx : Z) :
  unpack_row row offset = inr (wt, idx, mt) ->
  compute_pppl num_sum row S model alphabet offset =
  match py_index S idx with
  | None => ([], inl IndexError)
  | Some c =>
      if Ascii.eqb c wt then
        let S' := py_slice S None (Some idx) ++ [mt] ++ py_slice S (Some (idx + 1)%Z) None in
        bind (mapM (pppl_pass model alphabet S' (batch_converter alphabet S'))
                   (seq 1 (length S' - 1 - 1)))
             (fun log_probs => ret (num_sum log_probs))
      else ([], inl InconsistentMutationError)
  end.
Proof.
  intros Hrow. unfold compute_pppl. rewrite Hrow.
  cbn -[Z.add Z.sub py_slice py_index mapM batch_converter Nat.sub].
  destruct (py_index S idx) as [c|];
    cbn -[Z.add Z.sub py_slice py_index mapM batch_converter Nat.sub]; [|reflexivity].
  destruct (Ascii.eqb c wt); [|reflexivity].
  match goal with |- _ = ?m => now destruct m end.
Qed.

(** The wild-type assertion of [label_row] and of [compute_pppl]: it is
    raised exactly when the symbol [S[pos - offset]] exists and differs
    from [wt], and [compute_pppl] has made no forward pass by then. *)
Lemma wildtype_assertion (row S : str) (offset : Z) (wt mt : ascii) (pos : Z) :
  unpack_row row offset = inr (wt, (pos - offset)%Z, mt) ->
  (forall tp alphabet,
     label_row num_sub row S tp alphabet offset = inl InconsistentMutationError <->
     exists c, py_index S (pos - offset) = Some c /\ c <> wt) /\
  (forall model alphabet,
     result (compute_pppl num_sum row S model alphabet offset) = inl InconsistentMutationError <->
     exists c, py_index S (pos - offset) = Some c /\ c <> wt) /\
  (forall model alphabet,
     result (compute_pppl num_sum row S model alphabet offset) = inl InconsistentMutationError ->
     trace (compute_pppl num_sum row S model alphabet offset) = []).
Proof.
  intros Hrow. split; [|split].
  - intros tp alphabet. rewrite label_row_checked with (1 := Hrow).
    destruct (py_index S (pos - offset)) as [c|].
    + destruct (Ascii.eqb_spec c wt) as [->|Hne].
      * split.
        -- destruct (py_index tp _) as [r|]; [|discriminate].
           destruct (nth_error r _); [|discriminate].
           destruct (nth_error r _); discriminate.
        -- intros [c [[= <-] Hc]]. contradiction.
      * split; [|reflexivity]. intros _. now exists c.
    + split; [discriminate|]. intros [c [[=] _]].
  - intros model alphabet. rewrite compute_pppl_checked with (1 := Hrow).
    destruct (py_index S (pos - offset)) as [c|].
    + destruct (Ascii.eqb_spec c wt) as [->|Hne].
      * split.
        -- cbv zeta. rewrite result_bind.
           destruct (result (mapM _ _)) as [e|lp] eqn:E; [|discriminate].
           apply (result_mapM_error (fun e => e = IndexError)) in E;
             [subst e; discriminate|].
           intros a e'. apply pppl_pass_error.
        -- intros [c [[= <-] Hc]]. contradiction.
      * split; [|reflexivity]. intros _. now exists c.
    + split; [discriminate|]. intros [c [[=] _]].
  - intros model alphabet. rewrite compute_pppl_checked with (1 := Hrow).
    destruct (py_index S (pos - offset)) as [c|]; [|discriminate].
    destruct (Ascii.eqb c wt); [|reflexivity].
    cbv zeta. rewrite result_bind.
    destruct (result (mapM _ _)) as [e|lp] eqn:E; [|discriminate].
    apply (result_mapM_error (fun e => e = IndexError)) in E;
      [subst e; discriminate|].
    intros a e'. apply pppl_pass_error.
Qed.

(** C9, as amended.  When the position of the label is below the offset by
    at most [len(S)], the index is negative and the symbol the check reads
    is counted from the end of the sequence, without an [IndexError]; the
    label is refused when that symbol differs from its wild type and is
    scored, from row [1 + idx] of the tensor, when it is the same. *)
Theorem position_below_offset (row S : str) (tp : list (list num)) (alphabet : Alphabet)
        (offset : Z) (wt mt : ascii) (pos : Z) :
  unpack_row row offset = inr (wt, (pos - offset)%Z, mt) ->
  (offset - Z.of_nat (length S) <= pos < offset)%Z ->
  exists c,
    py_index S (pos - offset) = Some c /\
    nth_error S (Z.to_nat (Z.of_nat (length S) + (pos - offset))) = Some c /\
    (c <> wt ->
     label_row num_sub row S tp alphabet offset = inl InconsistentMutationError) /\
    (c = wt ->
     forall r a b,
       py_index tp (1 + (pos - offset)) = Some r ->
       nth_error r (get_idx alphabet mt) = Some a ->
       nth_error r (get_idx alphabet wt) = Some b ->
       label_row num_sub row S tp alphabet offset = inr (num_sub a b)).
Proof.
  intros Hrow Hpos.
  destruct (@py_index_from_end _ S (pos - offset)%Z) as [Hend [c Hc]]; [lia|].
  exists c. split; [exact Hc|]. split; [now rewrite <- Hend|].
  rewrite label_row_checked with (1 := Hrow), Hc. split.
  - intros Hne. now rewrite ascii_eqb_false.
  - intros -> r a b Hr Ha Hb. now rewrite Ascii.eqb_refl, Hr, Ha, Hb.
Qed.

End Scoring.

Lemma position_below_offset_witness :
  unpack_row (py "D0A") 1 = inr ("D"%char, (0 - 1)%Z, "A"%char) /\
  py_index (py "ACD") (0 - 1) = Some "D"%char /\
  nth_error (py "ACD") 2 = Some "D"%char /\
  exists score,
    label_row f32_sub (py "D0A") (py "ACD")
              (toy_probs 0 (batch_converter esm1b_alphabet (py "ACD"))) esm1b_alphabet 1
    = inr score.
Proof.
  destruct (@position_below_offset f32 f32_sub (py "D0A") (py "ACD")
              (toy_probs 0 (batch_converter esm1b_alphabet (py "ACD")))
              esm1b_alphabet 1 "D" "A" 0 eq_refl)
    as [c [Hc [Hend [_ Hscore]]]].
  - simpl. lia.
  - assert (Hd : c = "D"%char) by (vm_compute in Hc; congruence).
    split; [reflexivity|]. split; [now rewrite Hc, Hd|]. split; [reflexivity|].
    eexists. eapply (Hscore Hd); reflexivity.
Defined.

(** C9 as stated fails: a position below the offset by more than
    [len(S)] is an [IndexError] at [sequence[idx]], with the default offset
    as with a larger one. *)
Lemma position_below_offset_counterexample :
  unpack_row (py "A-5C") 1 = inr ("A"%char, (-5 - 1)%Z, "C"%char) /\
  label_row f32_sub (py "A-5C") (py "ACD")
            (toy_probs 0 (batch_converter esm1b_alphabet (py "ACD"))) esm1b_alphabet 1
  = inl IndexError /\
  unpack_row (py "A1C") 5 = inr ("A"%char, (1 - 5)%Z, "C"%char) /\
  label_row f32_sub (py "A1C") (py "ACD")
            (toy_probs 0 (batch_converter esm1b_alphabet (py "ACD"))) esm1b_alphabet 5
  = inl IndexError.
Proof. repeat split; vm_compute; reflexivity. Qed.

(** ** The pseudo-perplexity loop *)

Lemma mutated_length A (S : list A) (idx : Z) (mt : A) :
  (0 <= idx < Z.of_nat (length S))%Z ->
  length (py_slice S None (Some idx) ++ [mt] ++ py_slice S (Some (idx + 1)%Z) None)
  = length S.
Proof.
  intros H. unfold py_slice.
  destruct (Z.ltb_spec idx 0); [lia|]. destruct (Z.ltb_spec (idx + 1) 0); [lia|].
  rewrite !length_app, !length_firstn, !length_skipn. cbn [length].
  rewrite !Z.min_l by lia. rewrite !Nat.min_l by lia. lia.
Qed.

(** For a label inside the sequence the loop of [compute_pppl] makes at
    most [len(S) - 2] forward passes. *)
Lemma compute_pppl_passes_bound num (num_sum : list num -> num) (row S : str)
      (model : list nat -> list (list num)) (alphabet : Alphabet) (offset : Z)
      (wt mt : ascii) (idx : Z) :
  unpack_row row offset = inr (wt, idx, mt) ->
  (0 <= idx < Z.of_nat (length S))%Z ->
  length (trace (compute_pppl num_sum row S model alphabet offset)) <= length S - 2.
Proof.
  intros Hrow Hidx. rewrite compute_pppl_checked with (1 := Hrow).
  destruct (py_index S idx) as [c|]; [|cbn; lia].
  destruct (Ascii.eqb c wt); [|cbn; lia].
  cbv zeta. rewrite trace_bind, length_app.
  match goal with
  | |- context [mapM ?f ?l] =>
      pose proof (@trace_mapM_length num _ _ f l (pppl_pass_trace model alphabet _ _)) as Hlen
  end.
  rewrite length_seq in Hlen. rewrite mutated_length in * by exact Hidx.
  destruct (result (mapM _ _)); cbn [length trace fst ret] in *; lia.
Qed.

(** C1, on the code.  Scoring the mutation [A1C] of the three-residue
    sequence [ACD] by pseudo-perplexity makes one masked forward pass, not
    three: the loop runs over [range(1, len(sequence) - 1)], masks token 1 of
    the encoded mutated sequence [CCD] and returns the sum of the single
    log-probability read there, that of [sequence[1]]. *)
Theorem compute_pppl_three_residues num (num_sum : list num -> num)
        (model : list nat -> list (list num)) (alphabet : Alphabet) :
  exists masked,
    list_set (batch_converter alphabet (py "CCD")) 1 (mask_idx alphabet) = Some masked /\
    trace (compute_pppl num_sum (py "A1C") (py "ACD") model alphabet 1) = [Forward masked] /\
    result (compute_pppl num_sum (py "A1C") (py "ACD") model alphabet 1) =
    match nth_error (model masked) 1 with
    | Some r =>
        match nth_error r (get_idx alphabet "C") with
        | Some x => inr (num_sum [x])
        | None => inl IndexError
        end
    | None => inl IndexError
    end.
Proof.
  rewrite compute_pppl_checked with (wt := "A"%char) (idx := 0%Z) (mt := "C"%char)
    by reflexivity.
  change (py_index (py "ACD") 0) with (Some "A"%char). cbv iota beta.
  change (Ascii.eqb "A" "A") with true. cbv iota zeta.
  change (py_slice (py "ACD") None (Some 0%Z) ++ ["C"%char] ++
          py_slice (py "ACD") (Some (0 + 1)%Z) None) with (py "CCD").
  change (seq 1 (length (py "CCD") - 1 - 1)) with [1].
  unfold batch_converter.
  destruct (prepend_bos alphabet), (append_eos alphabet); cbn;
    (eexists; split; [reflexivity|]);
    match goal with
    | |- context [model ?t] => destruct (model t) as [|r0 [|r rs]]
    end; cbn; try (split; reflexivity);
    (destruct (nth_error r (get_idx alphabet "C")); cbn; split; reflexivity).
Qed.

(** ** The no-op label under IEEE 754 arithmetic *)

Lemma f32_sub_diag (x : f32) :
  f32_sub x x = if is_finite x then f32_zero else S754_nan.
Proof.
  destruct x as [s|s| |s m e]; try (destruct s; reflexivity); [reflexivity|].
  unfold f32_sub, SFsub. now rewrite Z.sub_diag.
Qed.

(** C6, as amended.  For a no-op label that passes the wild-type check,
    [label_row] reads the same element of the tensor twice and returns their
    difference: exactly [+0.0] when that log-probability is a finite float,
    and NaN when it is an infinity or a NaN. *)
Theorem noop_score (row S : str) (tp : list (list f32)) (alphabet : Alphabet)
        (offset : Z) (wt : ascii) (idx : Z) (r : list f32) (x : f32) :
  unpack_row row offset = inr (wt, idx, wt) ->
  py_index S idx = Some wt ->
  py_index tp (1 + idx) = Some r ->
  nth_error r (get_idx alphabet wt) = Some x ->
  label_row f32_sub row S tp alphabet offset =
  inr (if is_finite x then f32_zero else S754_nan).
Proof.
  intros Hrow HS Hr Hx.
  rewrite label_row_checked with (1 := Hrow).
  rewrite HS, Ascii.eqb_refl, Hr, Hx. now rewrite f32_sub_diag.
Qed.

Lemma noop_score_witness :
  unpack_row (py "C2C") 1 = inr ("C"%char, 1%Z, "C"%char) /\
  label_row f32_sub (py "C2C") (py "ACD")
            (toy_probs 0 (batch_converter esm1b_alphabet (py "ACD"))) esm1b_alphabet 1
  = inr f32_zero.
Proof.
  split; [reflexivity|].
  apply (@noop_score (py "C2C") (py "ACD")
           (toy_probs 0 (batch_converter esm1b_alphabet (py "ACD")))
           esm1b_alphabet 1 "C" 1
           (map (fun k => f32_of_Z (- Z.of_nat (1 + 0 + k + 23))) (seq 0 33))
           (f32_of_Z (-47))); reflexivity.
Defined.

(** C6 as stated fails: where the tensor gives the symbol the probability
    0, its log-probability is minus infinity and the score of the no-op
    label is NaN, which is not 0. *)
Lemma noop_score_counterexample :
  unpack_row (py "A1A") 1 = inr ("A"%char, 0%Z, "A"%char) /\
  label_row f32_sub (py "A1A") (py "ACD") certain_probs esm1b_alphabet 1 = inr S754_nan /\
  label_row f32_sub (py "A1A") (py "ACD") certain_probs esm1b_alphabet 1 <> inr f32_zero /\
  SFeqb S754_nan f32_zero = false.
Proof. repeat split; try (vm_compute; reflexivity). vm_compute. discriminate. Qed.

(** ** The run *)

Lemma list_set_Some A (l : list A) (i : nat) (v : A) :
  i < length l -> exists m, list_set l i v = Some m /\ length m = length l.
Proof.
  revert i. induction l as [|x l IH]; intros i Hi; [cbn in Hi; lia|].
  destruct i as [|i]; cbn.
  - now eexists.
  - destruct (IH i) as [m [-> Hm]]; [cbn in Hi; lia|].
    cbn. eexists. split; [reflexivity|]. cbn. now rewrite Hm.
Qed.

Lemma length_batch_converter (alphabet : Alphabet) (S : str) :
  length (batch_converter alphabet S) =
  length S + Nat.b2n (prepend_bos alphabet) + Nat.b2n (append_eos alphabet).
Proof.
  unfold batch_converter. rewrite !length_app, length_map.
  destruct (prepend_bos alphabet), (append_eos alphabet); cbn; lia.
Qed.

Lemma nth_error_batch_converter (alphabet : Alphabet) (S : str) (i : nat) (c : ascii) :
  prepend_bos alphabet = true ->
  nth_error S i = Some c ->
  nth_error (batch_converter alphabet S) (1 + i) = Some (get_idx alphabet c).
Proof.
  intros Hbos Hc. unfold batch_converter. rewrite Hbos. cbn.
  rewrite nth_error_app1 by (rewrite length_map; apply nth_error_Some; congruence).
  now rewrite nth_error_map, Hc.
Qed.

Section Run.

Variable num : Type.
Variable num_sub : num -> num -> num.
Variable num_sum : list num -> num.

Lemma mapM_emit A B (f : A -> M num B) (ev : A -> event num) (g : A -> B) (l : list A) :
  (forall a, In a l -> f a = ([ev a], inr (g a))) ->
  mapM f l = (map ev l, inr (map g l)).
Proof.
  induction l as [|a l IH]; intros Hf; [reflexivity|].
  cbn [mapM map]. rewrite Hf by now left.
  rewrite IH by (intros b Hb; apply Hf; now right).
  cbn [bind ret app]. now rewrite app_nil_r.
Qed.

Lemma apply_rows_pure (df : DataFrame num) (col : str) (f : str -> error + num) :
  trace (apply_rows df col (fun row => lift (f row))) = [].
Proof.
  unfold apply_rows. destruct (df_get df col) as [cells|].
  - apply trace_mapM_pure. intros [row|x]; [|reflexivity].
    cbn. now destruct (f row).
  - now destruct (nrows df =? 0).
Qed.

Lemma apply_rows_only_passes (df : DataFrame num) (col : str) (f : str -> M num num) :
  (forall row, only_passes (trace (f row))) ->
  only_passes (trace (apply_rows df col f)).
Proof.
  intros Hf. unfold apply_rows. destruct (df_get df col) as [cells|].
  - apply trace_mapM_Forall. intros [row|x]; [|constructor].
    rewrite trace_bind. apply Forall_app. split; [apply Hf|].
    destruct (result (f row)); constructor.
  - destruct (nrows df =? 0); constructor.
Qed.

Lemma pppl_pass_only_passes (model : list nat -> list (list num)) (alphabet : Alphabet)
      (S : str) (toks : list nat) (i : nat) :
  only_passes (trace (pppl_pass model alphabet S toks i)).
Proof.
  unfold pppl_pass.
  destruct (list_set toks i (mask_idx alphabet)) as [m|]; cbn; [|constructor].
  destruct (nth_error S i); cbn; [|repeat constructor; now eexists].
  destruct (nth_error (model m) i) as [r|]; cbn; repeat constructor; now eexists.
Qed.

Lemma compute_pppl_only_passes (row S : str) (model : list nat -> list (list num))
      (alphabet : Alphabet) (offset : Z) :
  only_passes (trace (compute_pppl num_sum row S model alphabet offset)).
Proof.
  destruct (unpack_row row offset) as [e|[[wt idx] mt]] eqn:Hrow.
  - unfold compute_pppl. rewrite Hrow. constructor.
  - rewrite compute_pppl_checked with (1 := Hrow).
    destruct (py_index S idx) as [c|]; [|constructor].
    destruct (Ascii.eqb c wt); [|constructor].
    cbv zeta. rewrite trace_bind. apply Forall_app. split.
    + apply trace_mapM_Forall. intros i. apply pppl_pass_only_passes.
    + destruct (result (mapM _ _)); constructor.
Qed.

Lemma masked_pass_only_passes (model : list nat -> list (list num)) (alphabet : Alphabet)
      (toks : list nat) (i : nat) :
  only_passes (trace (masked_pass model alphabet toks i)).
Proof.
  unfold masked_pass.
  destruct (list_set toks i (mask_idx alphabet)) as [m|]; cbn; [|constructor].
  destruct (nth_error (model m) i) as [r|]; cbn; repeat constructor; now eexists.
Qed.

Lemma msa_masked_pass_trace (msa_model : list (list nat) -> list (list (list num)))
      (alphabet : Alphabet) (toks : list (list nat)) (i : nat) :
  Forall (fun ev : event num => exists t, ev = ForwardMSA t)
         (trace (msa_masked_pass msa_model alphabet toks i)).
Proof.
  unfold msa_masked_pass.
  destruct (nth_error toks 0) as [row0|]; cbn [lift opt bind trace fst]; [|constructor].
  destruct (list_set row0 i (mask_idx alphabet)) as [m|];
    cbn [lift opt bind trace fst emit app]; [|constructor].
  destruct (nth_error (msa_model (m :: tl toks)) 0) as [rows|];
    cbn [lift opt bind trace fst emit app].
  - destruct (nth_error rows i); cbn [opt]; (constructor; [now eexists|constructor]).
  - constructor; [now eexists|constructor].
Qed.

(** The alignment-aware model is refused, before any pass, under every
    strategy but the masked-marginal one. *)
Lemma score_model_msa_refused (w : World num) (args : Args) (df : DataFrame num)
      (loc : str) (msa_model : list (list nat) -> list (list (list num)))
      (alphabet : Alphabet) :
  load_model_and_alphabet w loc = (MSATransformer msa_model, alphabet) ->
  scoring_strategy args <> masked_marginals ->
  score_model num_sub num_sum w args df loc =
  ([], inl match read_msa w with inl e => e | inr _ => AssertionError msa_msg end).
Proof.
  intros Hload Hs. unfold score_model. rewrite Hload.
  destruct (read_msa w) as [e|msa]; [reflexivity|].
  destruct (scoring_strategy args); try contradiction; reflexivity.
Qed.

Lemma score_model_only_passes (w : World num) (args : Args) (df : DataFrame num) (loc : str) :
  scoring_strategy args <> masked_marginals ->
  only_passes (trace (score_model num_sub num_sum w args df loc)).
Proof.
  intros Hs.
  destruct (load_model_and_alphabet w loc) as [[model|msa_model] alphabet] eqn:Hload.
  - unfold score_model. rewrite Hload.
    destruct (scoring_strategy args); [| |contradiction].
    + rewrite trace_bind. cbn [emit trace fst result snd app].
      constructor; [now eexists|].
      rewrite trace_bind, apply_rows_pure.
      destruct (result (apply_rows _ _ _)); constructor.
    + rewrite trace_bind. apply Forall_app. split.
      * apply apply_rows_only_passes. intros row. apply compute_pppl_only_passes.
      * destruct (result (apply_rows _ _ _)); constructor.
  - rewrite score_model_msa_refused with (1 := Hload) by exact Hs. constructor.
Qed.

Lemma score_models_only_passes (w : World num) (args : Args) (locs : list str)
      (df : DataFrame num) :
  scoring_strategy args <> masked_marginals ->
  only_passes (trace (score_models num_sub num_sum w args df locs)).
Proof.
  intros Hs. revert df. induction locs as [|loc locs IH]; intros df; [constructor|].
  cbn [score_models]. rewrite trace_bind. apply Forall_app. split.
  - now apply score_model_only_passes.
  - destruct (result (score_model _ _ _ _ _ _)); [constructor|apply IH].
Qed.

Lemma score_models_msa_refused (w : World num) (args : Args) (locs : list str)
      (df : DataFrame num) (loc : str)
      (msa_model : list (list nat) -> list (list (list num))) (alphabet : Alphabet) :
  In loc locs ->
  load_model_and_alphabet w loc = (MSATransformer msa_model, alphabet) ->
  scoring_strategy args <> masked_marginals ->
  exists e, result (score_models num_sub num_sum w args df locs) = inl e.
Proof.
  intros Hin Hload Hs. revert df. induction locs as [|l locs IH]; intros df; [contradiction|].
  cbn [score_models]. rewrite result_bind.
  destruct (result (score_model num_sub num_sum w args df l)) as [e|df'] eqn:E;
    [now exists e|].
  destruct Hin as [->|Hin]; [|now apply IH].
  rewrite score_model_msa_refused with (1 := Hload) in E by exact Hs. discriminate.
Qed.

Lemma only_passes_no_files (t : list (event num)) :
  only_passes t -> Forall (fun ev => is_pass ev = true) t.
Proof.
  apply Forall_impl. intros ev [toks ->]. reflexivity.
Qed.

(** Scoring with a model writes no file. *)
Lemma score_model_no_files (w : World num) (args : Args) (df : DataFrame num) (loc : str) :
  Forall (fun ev => is_pass ev = true) (trace (score_model num_sub num_sum w args df loc)).
Proof.
  unfold score_model.
  destruct (load_model_and_alphabet w loc) as [[model|msa_model] alphabet].
  - destruct (scoring_strategy args).
    + rewrite trace_bind. cbn [emit trace fst result snd app].
      constructor; [reflexivity|].
      rewrite trace_bind, apply_rows_pure.
      destruct (result (apply_rows _ _ _)); constructor.
    + rewrite trace_bind. apply Forall_app. split.
      * apply only_passes_no_files, apply_rows_only_passes.
        intros row. apply compute_pppl_only_passes.
      * destruct (result (apply_rows _ _ _)); constructor.
    + rewrite trace_bind. apply Forall_app. split.
      * apply only_passes_no_files, trace_mapM_Forall.
        intros i. apply masked_pass_only_passes.
      * destruct (result (mapM _ _)); [constructor|].
        rewrite trace_bind, apply_rows_pure.
        destruct (result (apply_rows _ _ _)); constructor.
  - rewrite trace_bind. destruct (read_msa w) as [e|msa]; [constructor|].
    cbn [lift trace fst result snd app]. rewrite trace_bind.
    destruct (Strategy_eqb (scoring_strategy args) masked_marginals); [|constructor].
    cbn [ret trace fst result snd app]. rewrite trace_bind.
    destruct (msa_batch_converter alphabet msa) as [e|toks]; [constructor|].
    cbn [lift trace fst result snd app]. rewrite trace_bind.
    apply Forall_app. split.
    + eapply Forall_impl; [|apply trace_mapM_Forall; intros i; apply msa_masked_pass_trace].
      intros ev [t ->]. reflexivity.
    + destruct (result (mapM _ _)); [constructor|].
      rewrite trace_bind, apply_rows_pure.
      destruct (result (apply_rows _ _ _)); constructor.
Qed.

Lemma score_models_no_files (w : World num) (args : Args) (locs : list str)
      (df : DataFrame num) :
  Forall (fun ev => is_pass ev = true) (trace (score_models num_sub num_sum w args df locs)).
Proof.
  revert df. induction locs as [|loc locs IH]; intros df; [constructor|].
  cbn [score_models]. rewrite trace_bind. apply Forall_app. split.
  - apply score_model_no_files.
  - destruct (result (score_model _ _ _ _ _ _)); [constructor|apply IH].
Qed.

End Run.

Section Main.

Variable num : Type.
Variable num_sub : num -> num -> num.
Variable num_sum : list num -> num.

Lemma main_steps (w : World num) (args : Args) (dms : str) (locs : list str) :
  dms_mutation args = Some dms ->
  model_location args = Some locs ->
  main num_sub num_sum w args =
  bind (emit (Written (if length dms =? 0 then all_mutants_txt else user_mutants_txt)
                      (Lines (if length dms =? 0
                              then generate_all_mutations (sequence args)
                              else generate_user_mutations dms))))
       (fun _ =>
          bind (score_models num_sub num_sum w args
                  (read_csv num (if length dms =? 0
                                 then generate_all_mutations (sequence args)
                                 else generate_user_mutations dms)) locs)
               (fun df =>
                  bind (emit (Written res_in_list_csv (Table df)))
                       (fun _ => if length dms =? 0
                                 then plot_esm_scan (sequence args) (read_table w df)
                                 else plot_clinvar df))).
Proof.
  intros Hdms Hlocs. unfold main. rewrite Hdms, Hlocs.
  destruct (length dms =? 0); cbn [bind emit ret app];
    now destruct (bind (score_models _ _ _ _ _ _) _).
Qed.

Lemma plot_clinvar_pure (df : DataFrame num) : trace (plot_clinvar df) = [].
Proof.
  unfold plot_clinvar. destruct (df_get df _); cbn; [|reflexivity].
  now destruct (df_get df _).
Qed.

(** C7, as amended.  When one of the models of a run is the alignment-aware
    one and the strategy is not the masked-marginal one, the run ends in an
    exception; the alignment-aware model makes no forward pass under any
    strategy, and neither the table nor the matrix is written.  The
    exception is raised when that model is reached in the loop over the
    models: when it is the first one, no forward pass at all precedes it,
    and it is the assertion unless reading the alignment has failed before. *)
Theorem msa_requires_masked_marginals (w : World num) (args : Args) (dms : str)
        (locs : list str) (loc : str)
        (msa_model : list (list nat) -> list (list (list num))) (alphabet : Alphabet) :
  dms_mutation args = Some dms ->
  model_location args = Some locs ->
  In loc locs ->
  load_model_and_alphabet w loc = (MSATransformer msa_model, alphabet) ->
  scoring_strategy args <> masked_marginals ->
  (exists e, result (main num_sub num_sum w args) = inl e) /\
  (forall toks, ~ In (ForwardMSA toks) (trace (main num_sub num_sum w args))) /\
  (forall f c, In (Written f c) (trace (main num_sub num_sum w args)) ->
               f = all_mutants_txt \/ f = user_mutants_txt) /\
  (hd_error locs = Some loc ->
   passes (trace (main num_sub num_sum w args)) = [] /\
   result (main num_sub num_sum w args) =
   inl match read_msa w with inl e => e | inr _ => AssertionError msa_msg end).
Proof.
  intros Hdms Hlocs Hin Hload Hs.
  rewrite main_steps with (1 := Hdms) (2 := Hlocs).
  set (f0 := if length dms =? 0 then all_mutants_txt else user_mutants_txt).
  set (lines := if length dms =? 0 then generate_all_mutations _ else _).
  destruct (@score_models_msa_refused num num_sub num_sum w args locs (read_csv num lines)
              loc msa_model alphabet Hin Hload Hs) as [e He].
  pose proof (@score_models_only_passes num num_sub num_sum w args locs
                (read_csv num lines) Hs) as Hp.
  assert (Htrace : trace (bind (emit (Written f0 (Lines lines)))
                    (fun _ => bind (score_models num_sub num_sum w args (read_csv num lines) locs)
                       (fun df => bind (emit (Written res_in_list_csv (Table df)))
                          (fun _ => if length dms =? 0
                                    then plot_esm_scan (sequence args) (read_table w df)
                                    else plot_clinvar df))))
                   = Written f0 (Lines lines)
                     :: trace (score_models num_sub num_sum w args (read_csv num lines) locs)).
  { rewrite trace_bind. cbn [emit trace fst result snd app].
    rewrite trace_bind, He. now rewrite app_nil_r. }
  assert (Hres : result (bind (emit (Written f0 (Lines lines)))
                    (fun _ => bind (score_models num_sub num_sum w args (read_csv num lines) locs)
                       (fun df => bind (emit (Written res_in_list_csv (Table df)))
                          (fun _ => if length dms =? 0
                                    then plot_esm_scan (sequence args) (read_table w df)
                                    else plot_clinvar df))))
                 = inl e).
  { rewrite result_bind. cbn [emit result snd]. now rewrite result_bind, He. }
  rewrite Htrace, Hres. split; [now exists e|]. split; [|split].
  - intros toks [Heq|Hin']; [discriminate|].
    unfold only_passes in Hp. rewrite Forall_forall in Hp.
    destruct (Hp _ Hin') as [t Ht]. discriminate.
  - intros f c [Heq|Hin'].
    + injection Heq as <- _. unfold f0. destruct (length dms =? 0); tauto.
    + unfold only_passes in Hp. rewrite Forall_forall in Hp.
      destruct (Hp _ Hin') as [t Ht]. discriminate.
  - intros Hhd. destruct locs as [|l locs']; [discriminate|].
    injection Hhd as ->. cbn [score_models] in He |- *.
    rewrite trace_bind, result_bind in *.
    rewrite score_model_msa_refused with (1 := Hload) in * by exact Hs.
    cbn [trace result fst snd app passes filter is_pass] in *. split; [reflexivity|].
    congruence.
Qed.

(** C8.  Reshaping a table whose score column does not have
    [len(S) * 20] rows (because the number is not a multiple of 20, or is
    another multiple) fails with the [ValueError] of [reshape], the shape
    mismatch, and writes nothing: no part of the table and no padded table
    becomes a matrix.  A run on mutations given by the user does not reach
    the reshape and writes no matrix file. *)
Theorem reshape_rejects_other_tables :
  (forall (S : str) (df : DataFrame num) (name : str) (col : list (cell num)),
     nth_error df 1 = Some (name, col) ->
     length col mod 20 <> 0 \/ length col <> length S * 20 ->
     plot_esm_scan S df = ([], inl ShapeMismatchError)) /\
  (forall (w : World num) (args : Args) (dms : str),
     dms_mutation args = Some dms ->
     dms <> [] ->
     forall c, ~ In (Written res_in_matrix_csv c) (trace (main num_sub num_sum w args))).
Proof.
  split; [apply plot_esm_scan_rejects|].
  intros w args dms Hdms Hne c.
  destruct (model_location args) as [locs|] eqn:Hlocs.
  - rewrite main_steps with (1 := Hdms) (2 := Hlocs).
    destruct dms as [|d dms']; [contradiction|]. cbn [length Nat.eqb].
    rewrite trace_bind. cbn [emit trace fst result snd app].
    intros [Heq|Hin]; [discriminate|].
    rewrite trace_bind in Hin. apply in_app_or in Hin. destruct Hin as [Hin|Hin].
    + pose proof (@score_models_no_files num num_sub num_sum w args locs
                    (read_csv num (generate_user_mutations (d :: dms')))) as Hp.
      rewrite Forall_forall in Hp. specialize (Hp _ Hin). discriminate.
    + destruct (result (score_models _ _ _ _ _ _)) as [e|df]; [contradiction|].
      rewrite trace_bind in Hin. cbn [emit trace fst result snd app] in Hin.
      destruct Hin as [Heq|Hin]; [discriminate|].
      now rewrite plot_clinvar_pure in Hin.
  - unfold main. rewrite Hdms, Hlocs.
    destruct dms as [|d dms']; [contradiction|]. cbn. intros [Heq|[]]. discriminate.
Qed.

End Main.

Lemma msa_requires_masked_marginals_witness :
  hd_error [py "msa"] = Some (py "msa") /\
  scoring_strategy (toy_args ["msa"%string] "AC" all_mutations wt_marginals) <> masked_marginals /\
  result (toy_main ["msa"%string] "AC" all_mutations wt_marginals) = inl (AssertionError msa_msg) /\
  passes (trace (toy_main ["msa"%string] "AC" all_mutations wt_marginals)) = [].
Proof.
  split; [reflexivity|]. split; [discriminate|].
  destruct (@msa_requires_masked_marginals f32 f32_sub f64_sum toy_world
              (toy_args ["msa"%string] "AC" all_mutations wt_marginals) (py all_mutations) [py "msa"] (py "msa")
              toy_msa_probs msa_alphabet eq_refl eq_refl (or_introl eq_refl) eq_refl)
    as [_ [_ [_ Hfirst]]]; [discriminate|].
  destruct (Hfirst eq_refl) as [Hpasses Hresult].
  split; [exact Hresult|exact Hpasses].
Defined.

(** C7 as stated fails: with a single-sequence model listed before the
    alignment-aware one, the first model has made its forward pass and
    scored every label when the assertion is raised. *)
Lemma msa_requires_masked_marginals_counterexample :
  toy_main ["m1"%string; "msa"%string] "A" all_mutations wt_marginals =
  ([Written all_mutants_txt (Lines (generate_all_mutations (py "A")));
    Forward [0; 5; 2]],
   inl (AssertionError msa_msg)).
Proof. vm_compute. reflexivity. Qed.

Lemma reshape_rejects_other_tables_witness :
  plot_esm_scan (py "ACD")
    [(py "mutant", [CStr (py "A1C"); CStr (py "D3A")]);
     (py "m1", [CNum f32_zero; CNum f32_zero])]
  = ([], inl ShapeMismatchError) /\
  forall c, ~ In (Written res_in_matrix_csv c)
                 (trace (toy_main ["m1"%string] "ACD" "A1C,D3A" wt_marginals)).
Proof.
  destruct (@reshape_rejects_other_tables f32 f32_sub f64_sum) as [Hreshape Hrun].
  split.
  - apply (Hreshape (py "ACD") _ (py "m1") [CNum f32_zero; CNum f32_zero]).
    + reflexivity.
    + right. simpl. lia.
  - apply (Hrun toy_world (toy_args ["m1"%string] "ACD" "A1C,D3A" wt_marginals) (py "A1C,D3A")).
    + reflexivity.
    + discriminate.
Defined.

Lemma plot_esm_scan_matrix_witness :
  exists m : ScoreMatrix f32,
    trace (plot_esm_scan (py "ACDEFGHIKLMN") (numbered_table (py "ACDEFGHIKLMN")))
    = [Written res_in_matrix_csv (Matrix m)] /\
    result (plot_esm_scan (py "ACDEFGHIKLMN") (numbered_table (py "ACDEFGHIKLMN"))) = inr tt /\
    length (data m) = 12 /\ columns m = aas /\
    nth_error (index m) 0 = Some (py "A1") /\
    nth_error (index m) 1 = Some (py "C2") /\
    nth_error (index m) 9 = Some (py "L10") /\
    nth_error (index m) 11 = Some (py "N12") /\
    (exists row, nth_error (data m) 9 = Some row /\
                 nth_error row 2 = Some (CNum (f32_of_Z 182))).
Proof.
  destruct (@plot_esm_scan_matrix f32 (py "ACDEFGHIKLMN")
              (numbered_table (py "ACDEFGHIKLMN")) (py "m1")
              (map (fun k => CNum (f32_of_Z (Z.of_nat k))) (seq 0 240)) eq_refl eq_refl)
    as [m [Hrun [Hres [Hrows [_ [Hcols [_ [Hindex Hdata]]]]]]]].
  exists m. split; [exact Hrun|]. split; [exact Hres|].
  split; [exact Hrows|]. split; [exact Hcols|].
  assert (Hlabel : forall r label, r < 12 ->
            Some (nth r (py "ACDEFGHIKLMN") " "%char :: str_of_nat (r + 1)) = Some label ->
            nth_error (index m) r = Some label).
  { intros r label Hr Hl. destruct (Hindex r Hr) as [digits [Hnth [-> _]]].
    rewrite Hnth. exact Hl. }
  split; [apply Hlabel; [simpl; lia | reflexivity]|].
  split; [apply Hlabel; [simpl; lia | reflexivity]|].
  split; [apply Hlabel; [simpl; lia | reflexivity]|].
  split; [apply Hlabel; [simpl; lia | reflexivity]|].
  destruct (Hdata 9 2) as [row [Hrow Hentry]]; [simpl; lia | lia |].
  exists row. split; [exact Hrow|]. rewrite Hentry. reflexivity.
Defined.

(** ** The masked-marginal strategy *)

Section MaskedMarginal.

Variable num : Type.
Variable num_sub : num -> num -> num.
Variable num_sum : list num -> num.

Lemma masked_pass_run (model : list nat -> list (list num)) (alphabet : Alphabet)
      (toks : list nat) (i : nat) :
  (forall t, length (model t) = length t) ->
  i < length toks ->
  exists masked,
    list_set toks i (mask_idx alphabet) = Some masked /\
    masked_pass model alphabet toks i = ([Forward masked], inr (nth i (model masked) [])) /\
    nth_error (model masked) i = Some (nth i (model masked) []).
Proof.
  intros Hshape Hi.
  destruct (list_set_Some toks (mask_idx alphabet) Hi) as [m [Hm Hlen]].
  exists m. split; [exact Hm|].
  assert (Hrow : nth_error (model m) i = Some (nth i (model m) [])).
  { apply nth_error_nth'. rewrite Hshape, Hlen. exact Hi. }
  split; [|exact Hrow].
  unfold masked_pass. rewrite Hm. cbn [lift opt bind emit app].
  rewrite Hrow. reflexivity.
Qed.

Lemma masked_passes_run (model : list nat -> list (list num)) (alphabet : Alphabet)
      (toks : list nat) :
  (forall t, length (model t) = length t) ->
  exists (evs : list (event num)) (tp : list (list num)),
    mapM (masked_pass model alphabet toks) (seq 0 (length toks)) = (evs, inr tp) /\
    length evs = length toks /\
    length tp = length toks /\
    forall i, i < length toks ->
      exists masked,
        list_set toks i (mask_idx alphabet) = Some masked /\
        nth_error evs i = Some (Forward masked) /\
        nth_error tp i = nth_error (model masked) i.
Proof.
  intros Hshape.
  set (m := fun i => match list_set toks i (mask_idx alphabet) with
                     | Some masked => masked
                     | None => []
                     end).
  exists (map (fun i => Forward (m i)) (seq 0 (length toks))),
         (map (fun i => nth i (model (m i)) []) (seq 0 (length toks))).
  split; [|split; [|split]].
  - apply mapM_emit. intros i Hi. apply in_seq in Hi.
    destruct (masked_pass_run model alphabet toks Hshape (i := i)) as [masked [Hm [Hrun _]]];
      [lia|].
    unfold m. now rewrite Hm.
  - now rewrite length_map, length_seq.
  - now rewrite length_map, length_seq.
  - intros i Hi.
    destruct (masked_pass_run model alphabet toks Hshape Hi) as [masked [Hm [_ Hrow]]].
    exists masked. split; [exact Hm|].
    rewrite !nth_error_map, nth_error_seq.
    destruct (Nat.ltb_spec i (length toks)); [|lia].
    cbn [option_map Nat.add]. unfold m. rewrite Hm. split; [reflexivity|].
    now rewrite Hrow.
Qed.

(** C2, as amended.  For a single-sequence model that returns one row per
    token, the masked-marginal strategy makes one forward pass per token of
    the encoded sequence, the begin and end markers included: that is
    [len(sequence)] plus one for each marker of the alphabet, not
    [len(sequence)].  Pass [i] runs on the tokens with token [i] masked and
    row [i] of its result is kept as row [i] of [token_probs].  The passes
    are the whole trace of the model whatever the labels are; every label is
    then scored by [label_row] from [token_probs], and, with the begin
    marker, a label inside the sequence at index [idx] is scored from the row
    of the pass that masked token [1 + idx], the token of residue [idx]. *)
Theorem masked_marginal_passes (w : World num) (args : Args) (df : DataFrame num)
        (loc : str) (model : list nat -> list (list num)) (alphabet : Alphabet) :
  load_model_and_alphabet w loc = (ProteinBertModel model, alphabet) ->
  scoring_strategy args = masked_marginals ->
  (forall t, length (model t) = length t) ->
  exists tp : list (list num),
    length (trace (score_model num_sub num_sum w args df loc)) =
    length (sequence args) + Nat.b2n (prepend_bos alphabet) + Nat.b2n (append_eos alphabet) /\
    length tp = length (batch_converter alphabet (sequence args)) /\
    (forall i, i < length (batch_converter alphabet (sequence args)) ->
       exists masked,
         list_set (batch_converter alphabet (sequence args)) i (mask_idx alphabet)
         = Some masked /\
         nth_error (trace (score_model num_sub num_sum w args df loc)) i
         = Some (Forward masked) /\
         nth_error tp i = nth_error (model masked) i) /\
    result (score_model num_sub num_sum w args df loc) =
    match result (apply_rows df (mutation_col args)
                    (fun row => lift (label_row num_sub row (sequence args) tp alphabet
                                                (offset_idx args)))) with
    | inl e => inl e
    | inr col => inr (df_set df loc col)
    end /\
    (prepend_bos alphabet = true ->
     forall row wt idx mt,
       unpack_row row (offset_idx args) = inr (wt, idx, mt) ->
       (0 <= idx < Z.of_nat (length (sequence args)))%Z ->
       py_index (sequence args) idx = Some wt ->
       exists masked,
         list_set (batch_converter alphabet (sequence args)) (1 + Z.to_nat idx)
                  (mask_idx alphabet) = Some masked /\
         nth_error (batch_converter alphabet (sequence args)) (1 + Z.to_nat idx)
         = Some (get_idx alphabet wt) /\
         label_row num_sub row (sequence args) tp alphabet (offset_idx args) =
         match nth_error (model masked) (1 + Z.to_nat idx) with
         | Some r =>
             match nth_error r (get_idx alphabet mt), nth_error r (get_idx alphabet wt) with
             | Some a, Some b => inr (num_sub a b)
             | _, _ => inl IndexError
             end
         | None => inl IndexError
         end).
Proof.
  intros Hload Hs Hshape.
  destruct (masked_passes_run model alphabet (batch_converter alphabet (sequence args)) Hshape)
    as [evs [tp [Hrun [Hevs [Htp Hrows]]]]].
  assert (Htrace : trace (score_model num_sub num_sum w args df loc) = evs).
  { unfold score_model. rewrite Hload, Hs, trace_bind, Hrun.
    cbn [trace fst result snd]. rewrite trace_bind, apply_rows_pure.
    destruct (result (apply_rows _ _ _)); cbn [app ret trace fst]; now rewrite app_nil_r. }
  exists tp. rewrite Htrace. split; [|split; [|split; [|split]]].
  - now rewrite Hevs, length_batch_converter.
  - exact Htp.
  - exact Hrows.
  - unfold score_model. rewrite Hload, Hs, result_bind, Hrun.
    cbn [result snd]. rewrite result_bind.
    now destruct (result (apply_rows _ _ _)).
  - intros Hbos row wt idx mt Hrow Hidx Hwt.
    assert (Hi : 1 + Z.to_nat idx < length (batch_converter alphabet (sequence args))).
    { rewrite length_batch_converter, Hbos. cbn [Nat.b2n]. lia. }
    destruct (Hrows _ Hi) as [masked [Hm [_ Hr]]].
    exists masked. split; [exact Hm|]. split.
    + apply nth_error_batch_converter; [exact Hbos|].
      rewrite <- Hwt. symmetry. apply py_index_nonneg. lia.
    + rewrite label_row_checked with (1 := Hrow).
      rewrite Hwt, Ascii.eqb_refl.
      rewrite py_index_nonneg by lia.
      replace (Z.to_nat (1 + idx)) with (1 + Z.to_nat idx) by lia.
      rewrite Hr. reflexivity.
Qed.

End MaskedMarginal.

Lemma toy_probs_shape (bias : nat) (t : list nat) : length (toy_probs bias t) = length t.
Proof. unfold toy_probs. now rewrite length_map, length_seq. Qed.

Lemma masked_marginal_passes_witness :
  length (trace (score_model f32_sub f64_sum toy_world
                   (toy_args ["m1"%string] "ACD" "A1C" masked_marginals)
                   [(py "mutant", [CStr (py "A1C")])] (py "m1")))
  = 3 + 1 + 1.
Proof.
  destruct (@masked_marginal_passes f32 f32_sub f64_sum toy_world
              (toy_args ["m1"%string] "ACD" "A1C" masked_marginals)
              [(py "mutant", [CStr (py "A1C")])] (py "m1")
              (toy_probs 0) esm1b_alphabet eq_refl eq_refl (toy_probs_shape 0))
    as [tp [Hlen _]].
  exact Hlen.
Defined.

(** C2 as stated fails: on the three residues of [ACD] the masked-marginal
    strategy makes five forward passes, the first on the masked begin marker
    and the last on the masked end marker. *)
Lemma masked_marginal_passes_counterexample :
  passes (trace (toy_main ["m1"%string] "ACD" all_mutations masked_marginals)) =
  [Forward [32; 5; 23; 13; 2]; Forward [0; 32; 23; 13; 2]; Forward [0; 5; 32; 13; 2];
   Forward [0; 5; 23; 32; 2]; Forward [0; 5; 23; 13; 32]] /\
  result (toy_main ["m1"%string] "ACD" all_mutations masked_marginals) = inr tt /\
  length (passes (trace (toy_main ["m1"%string] "ACD" all_mutations masked_marginals)))
  <> length (py "ACD").
Proof. vm_compute. repeat split. discriminate. Qed.

(** ** The table and the matrix of a run *)

Lemma str_eqb_refl (a : str) : str_eqb a a = true.
Proof. induction a as [|x a IH]; cbn; [reflexivity|]. now rewrite Ascii.eqb_refl. Qed.

Lemma str_eqb_eq (a b : str) : str_eqb a b = true -> a = b.
Proof.
  revert b. induction a as [|x a IH]; intros [|y b]; cbn; try discriminate; [reflexivity|].
  intros H. apply andb_prop in H. destruct H as [Hxy Hab].
  apply Ascii.eqb_eq in Hxy. subst y. now rewrite (IH b Hab).
Qed.

Lemma str_eqb_neq (a b : str) : a <> b -> str_eqb a b = false.
Proof.
  intros H. destruct (str_eqb a b) eqn:E; [|reflexivity].
  apply str_eqb_eq in E. contradiction.
Qed.

Lemma filter_all A (p : A -> bool) (l : list A) :
  (forall a, In a l -> p a = true) -> filter p l = l.
Proof.
  induction l as [|a l IH]; intros H; cbn; [reflexivity|].
  rewrite H by now left. rewrite IH; [reflexivity|].
  intros b Hb. apply H. now right.
Qed.

Section Table.

Variable num : Type.

Lemma read_csv_all_mutations (S : str) :
  read_csv num (generate_all_mutations S) =
  [(py "mutant", map CStr (tl (generate_all_mutations S)))].
Proof.
  unfold generate_all_mutations, read_csv. cbn [tl].
  rewrite filter_all; [reflexivity|].
  intros l Hl. apply in_flat_map in Hl. destruct Hl as [i [_ Hl]].
  apply in_map_iff in Hl. destruct Hl as [aa [<- Haa]].
  apply negb_true_iff, not_true_is_false. intros Hb.
  unfold blank_line in Hb. rewrite forallb_forall in Hb.
  assert (Hblank : (Ascii.eqb aa " " || Ascii.eqb aa "009") = true)
    by (apply Hb; right; apply in_or_app; right; now left).
  unfold aas in Haa. cbn in Haa.
  repeat (destruct Haa as [<-|Haa]; [discriminate Hblank|]). exact Haa.
Qed.

Lemma df_set_nth_name (df : DataFrame num) (name : str) (col : list (cell num))
      (i : nat) (n : str) (c : list (cell num)) :
  nth_error df i = Some (n, c) ->
  exists c', nth_error (df_set df name col) i = Some (n, c').
Proof.
  revert i. induction df as [|[n0 c0] df IH]; intros i Hi; [destruct i; discriminate|].
  cbn [df_set]. destruct (str_eqb n0 name).
  - destruct i as [|i]; cbn in *; [|eexists; eassumption].
    injection Hi as <- _. now eexists.
  - destruct i as [|i]; cbn in *; [eexists; eassumption|]. now apply IH.
Qed.

Lemma df_get_set_same (df : DataFrame num) (name : str) (col : list (cell num)) :
  df_get (df_set df name col) name = Some col.
Proof.
  induction df as [|[n0 c0] df IH]; cbn.
  - now rewrite str_eqb_refl.
  - destruct (str_eqb n0 name) eqn:E; cbn; now rewrite E.
Qed.

Lemma df_get_set_keep (df : DataFrame num) (name : str) (col : list (cell num))
      (n : str) (c : list (cell num)) :
  df_get df n = Some c -> exists c', df_get (df_set df name col) n = Some c'.
Proof.
  induction df as [|[n0 c0] df IH]; [discriminate|]. cbn.
  destruct (str_eqb n0 name) eqn:E; cbn; destruct (str_eqb n0 n);
    try (now eexists); try exact IH.
  intros H. eexists. exact H.
Qed.

Lemma df_get_set_other (df : DataFrame num) (name n : str) (col : list (cell num)) :
  name <> n -> df_get (df_set df name col) n = df_get df n.
Proof.
  intros Hne. induction df as [|[n0 c0] df IH]; cbn.
  - now rewrite str_eqb_neq.
  - destruct (str_eqb n0 name) eqn:E; cbn.
    + apply str_eqb_eq in E. subst n0. now rewrite str_eqb_neq.
    + destruct (str_eqb n0 n); [reflexivity|exact IH].
Qed.

Lemma mapM_cells_ok (f : str -> M num num) (cells col : list (cell num)) :
  result (mapM (fun c => match c with
                         | CStr row => bind (f row) (fun x => ret (CNum x))
                         | CNum _ => raise TypeError
                         end) cells) = inr col ->
  length col = length cells /\
  Forall (fun c => exists s, c = CStr s) cells /\
  Forall (fun c => exists x, c = CNum x) col.
Proof.
  revert col. induction cells as [|c cells IH]; intros col; cbn [mapM].
  - intros [= <-]. split; [reflexivity|split; constructor].
  - rewrite result_bind. destruct c as [row|x]; [|discriminate].
    rewrite result_bind. destruct (result (f row)); [discriminate|].
    cbn [ret result snd]. rewrite result_bind.
    destruct (result (mapM _ cells)) as [e|col'] eqn:E; [discriminate|].
    intros [= <-]. destruct (IH col' eq_refl) as [Hlen [Hall Hnum]].
    split; [cbn; now rewrite Hlen|].
    split; (constructor; [now eexists|assumption]).
Qed.

Lemma apply_rows_ok (df : DataFrame num) (mcol : str) (f : str -> M num num)
      (col : list (cell num)) :
  result (apply_rows df mcol f) = inr col ->
  match df_get df mcol with
  | Some cells =>
      length col = length cells /\
      Forall (fun c => exists s, c = CStr s) cells /\
      Forall (fun c => exists x, c = CNum x) col
  | None => nrows df = 0
  end.
Proof.
  unfold apply_rows. destruct (df_get df mcol) as [cells|].
  - apply mapM_cells_ok.
  - destruct (Nat.eqb_spec (nrows df) 0); [easy|discriminate].
Qed.

Lemma apply_rows_scores (df : DataFrame num) (mcol : str) (f : str -> M num num)
      (col : list (cell num)) :
  result (apply_rows df mcol f) = inr col ->
  Forall (fun c => exists x, c = CNum x) col.
Proof.
  unfold apply_rows. destruct (df_get df mcol) as [cells|].
  - apply mapM_cells_ok.
  - destruct (nrows df =? 0); [|discriminate]. intros [= <-]. constructor.
Qed.

Lemma df_set_nth_cases (df : DataFrame num) (name : str) (col : list (cell num))
      (i : nat) (n : str) (c : list (cell num)) :
  nth_error df i = Some (n, c) ->
  nth_error (df_set df name col) i = Some (n, c) \/
  nth_error (df_set df name col) i = Some (n, col).
Proof.
  revert i. induction df as [|[n0 c0] df IH]; intros i Hi; [destruct i; discriminate|].
  cbn [df_set]. destruct (str_eqb n0 name).
  - destruct i as [|i]; cbn in *; [|now left].
    injection Hi as <- _. now right.
  - destruct i as [|i]; cbn in *; [now left|]. now apply IH.
Qed.

Lemma nth_error_read_table (w : World num) (df : DataFrame num) (i : nat) (n : str)
      (c : list (cell num)) :
  nth_error (read_table w df) i = Some (n, c) ->
  exists c0, nth_error df i = Some (n, c0) /\ c = map (read_cell w) c0.
Proof.
  unfold read_table. rewrite nth_error_map.
  destruct (nth_error df i) as [[n0 c0]|]; [|discriminate].
  cbn. intros [= <- <-]. now exists c0.
Qed.

Lemma plot_esm_scan_ok (S : str) (df : DataFrame num) :
  result (plot_esm_scan S df) = inr tt ->
  exists name col,
    nth_error df 1 = Some (name, col) /\
    length col = length S * 20 /\
    trace (plot_esm_scan S df) =
    [Written res_in_matrix_csv
       (Matrix {| columns := aas;
                  index := map (fun x => nth x S " "%char :: str_of_nat (x + 1))
                               (seq 0 (length S));
                  data := chunks (length S) 20 col |})].
Proof.
  intros H. destruct (nth_error df 1) as [[name col]|] eqn:E.
  - destruct (Nat.eq_dec (length col) (length S * 20)) as [Hlen|Hlen].
    + exists name, col. split; [reflexivity|]. split; [exact Hlen|].
      now rewrite (plot_esm_scan_run S df E Hlen).
    + rewrite (plot_esm_scan_rejects S df E) in H by now right. discriminate.
  - unfold plot_esm_scan in H. rewrite E in H. discriminate.
Qed.

End Table.

Section FirstModel.

Variable num : Type.
Variable num_sub : num -> num -> num.
Variable num_sum : list num -> num.

Lemma score_model_ok (w : World num) (args : Args) (df df' : DataFrame num) (loc : str) :
  result (score_model num_sub num_sum w args df loc) = inr df' ->
  exists (f : str -> M num num) (col : list (cell num)),
    result (apply_rows df (mutation_col args) f) = inr col /\ df' = df_set df loc col.
Proof.
  unfold score_model.
  destruct (load_model_and_alphabet w loc) as [[model|msa_model] alphabet].
  - destruct (scoring_strategy args).
    + rewrite result_bind. cbn [emit result snd]. rewrite result_bind.
      destruct (result (apply_rows _ _ _)) as [e|col] eqn:E; [discriminate|].
      intros [= <-]. eauto.
    + rewrite result_bind.
      destruct (result (apply_rows _ _ _)) as [e|col] eqn:E; [discriminate|].
      intros [= <-]. eauto.
    + rewrite result_bind. destruct (result (mapM _ _)) as [e|tp]; [discriminate|].
      rewrite result_bind.
      destruct (result (apply_rows _ _ _)) as [e|col] eqn:E; [discriminate|].
      intros [= <-]. eauto.
  - rewrite result_bind. destruct (read_msa w) as [e|msa]; [discriminate|].
    cbn [lift result snd]. rewrite result_bind.
    destruct (Strategy_eqb (scoring_strategy args) masked_marginals); [|discriminate].
    cbn [ret result snd]. rewrite result_bind.
    destruct (msa_batch_converter alphabet msa) as [e|toks]; [discriminate|].
    cbn [lift result snd]. rewrite result_bind.
    destruct (result (mapM _ _)) as [e|tp]; [discriminate|].
    rewrite result_bind.
    destruct (result (apply_rows _ _ _)) as [e|col] eqn:E; [discriminate|].
    intros [= <-]. eauto.
Qed.

Lemma score_models_ok (w : World num) (args : Args) (locs : list str)
      (df df' : DataFrame num) :
  result (score_models num_sub num_sum w args df locs) = inr df' ->
  (forall i n c, nth_error df i = Some (n, c) -> exists c', nth_error df' i = Some (n, c')) /\
  (forall n c, df_get df n = Some c -> exists c', df_get df' n = Some c') /\
  (forall loc, In loc locs -> exists c, df_get df' loc = Some c).
Proof.
  revert df. induction locs as [|l locs IH]; intros df; cbn [score_models].
  - intros [= <-]. split; [|split]; [eauto|eauto|contradiction].
  - rewrite result_bind.
    destruct (result (score_model num_sub num_sum w args df l)) as [e|df1] eqn:E1;
      [discriminate|].
    intros Hrest. destruct (IH df1 Hrest) as [Hnth [Hget Hin]].
    destruct (score_model_ok w args df l E1) as [f [col [_ ->]]].
    split; [|split].
    + intros i n c Hi.
      destruct (df_set_nth_name df l col i Hi) as [c1 H1]. eapply Hnth, H1.
    + intros n c Hn.
      destruct (df_get_set_keep df l col n Hn) as [c1 H1]. eapply Hget, H1.
    + intros loc [<-|Hloc]; [|now apply Hin].
      eapply Hget, df_get_set_same.
Qed.

Lemma score_models_other_column (w : World num) (args : Args) (locs : list str)
      (df df' : DataFrame num) (n : str) :
  result (score_models num_sub num_sum w args df locs) = inr df' ->
  ~ In n locs -> df_get df' n = df_get df n.
Proof.
  revert df. induction locs as [|l locs IH]; intros df; cbn [score_models].
  - intros [= <-] _. reflexivity.
  - rewrite result_bind.
    destruct (result (score_model num_sub num_sum w args df l)) as [e|df1] eqn:E1;
      [discriminate|].
    intros Hrest Hn. destruct (score_model_ok w args df l E1) as [f [col [_ ->]]].
    rewrite (IH _ Hrest) by (intros Hin; apply Hn; now right).
    apply df_get_set_other. intros ->. apply Hn. now left.
Qed.

Lemma score_models_scores (w : World num) (args : Args) (locs : list str)
      (df df' : DataFrame num) (i : nat) (n : str) (c : list (cell num)) :
  result (score_models num_sub num_sum w args df locs) = inr df' ->
  nth_error df i = Some (n, c) ->
  Forall (fun x => exists v, x = CNum v) c ->
  exists c', nth_error df' i = Some (n, c') /\ Forall (fun x => exists v, x = CNum v) c'.
Proof.
  revert df c. induction locs as [|l locs IH]; intros df c; cbn [score_models].
  - intros [= <-] Hi Hc. eauto.
  - rewrite result_bind.
    destruct (result (score_model num_sub num_sum w args df l)) as [e|df1] eqn:E1;
      [discriminate|].
    intros Hrest Hi Hc.
    destruct (score_model_ok w args df l E1) as [f [col [Hcol ->]]].
    destruct (df_set_nth_cases df l col i Hi) as [H1|H1].
    + exact (IH _ _ Hrest H1 Hc).
    + exact (IH _ _ Hrest H1 (apply_rows_scores _ _ _ Hcol)).
Qed.

(** After the first model has scored the labels of a sequence that is not
    empty, the table has the labels as its first column and scores of that
    model as its second: the scores that the model gives the labels, when
    the model is not evaluated a second time. *)
Lemma first_model_column (w : World num) (args : Args) (loc1 : str) (rest : list str)
      (df : DataFrame num) :
  sequence args <> [] ->
  result (score_models num_sub num_sum w args
            (read_csv num (generate_all_mutations (sequence args))) (loc1 :: rest))
  = inr df ->
  length df <> 1 ->
  exists col1,
    nth_error df 1 = Some (loc1, col1) /\
    Forall (fun x => exists v, x = CNum v) col1 /\
    (~ In loc1 rest ->
     result (score_model num_sub num_sum w args
               (read_csv num (generate_all_mutations (sequence args))) loc1)
     = inr (df_set (read_csv num (generate_all_mutations (sequence args))) loc1 col1)).
Proof.
  intros Hseq Hrun Hcols. rewrite read_csv_all_mutations in *.
  cbn [score_models] in Hrun. rewrite result_bind in Hrun.
  destruct (result (score_model _ _ _ _ _ _)) as [e|df1] eqn:E1; [discriminate|].
  destruct (score_model_ok w args _ loc1 E1) as [f [col1 [Hcol1 ->]]].
  assert (Hlabels : length (tl (generate_all_mutations (sequence args))) <> 0).
  { rewrite generate_all_mutations_length. destruct (sequence args); [contradiction|].
    cbn. lia. }
  pose proof (apply_rows_scores _ _ _ Hcol1) as Hnum.
  apply apply_rows_ok in Hcol1. cbn [df_set] in Hrun.
  destruct (str_eqb (py "mutant") loc1) eqn:Eloc.
  - exfalso. cbn [df_get nrows] in Hcol1.
    destruct (str_eqb (py "mutant") (mutation_col args)) eqn:Emc;
      [|rewrite length_map in Hcol1; contradiction].
    destruct Hcol1 as [Hlen1 [_ Hnum1]]. rewrite length_map in Hlen1.
    destruct rest as [|loc2 rest'].
    + cbn [score_models ret result snd] in Hrun. injection Hrun as <-.
      apply Hcols. reflexivity.
    + cbn [score_models] in Hrun. rewrite result_bind in Hrun.
      destruct (result (score_model _ _ _ _ _ loc2)) as [e|df2] eqn:E2; [discriminate|].
      destruct (score_model_ok w args _ loc2 E2) as [f2 [col2 [Hcol2 _]]].
      apply apply_rows_ok in Hcol2. cbn [df_get] in Hcol2. rewrite Emc in Hcol2.
      destruct Hcol2 as [_ [Hstr1 _]].
      destruct col1 as [|c col1]; [apply Hlabels; now rewrite <- Hlen1|].
      inversion Hstr1 as [|? ? [s Hs] _]. inversion Hnum1 as [|? ? [v Hv] _].
      congruence.
  - destruct (@score_models_scores w args rest _ df 1 loc1 col1 Hrun eq_refl Hnum)
      as [c' [Hc' Hnum']].
    exists c'. split; [exact Hc'|]. split; [exact Hnum'|].
    intros Hnot. cbn [df_set]. rewrite Eloc. do 3 f_equal.
    assert (Hget : df_get df loc1 = Some col1).
    { rewrite (@score_models_other_column w args rest _ df loc1 Hrun Hnot).
      cbn [df_get]. now rewrite Eloc, str_eqb_refl. }
    destruct (proj1 (score_models_ok w args _ _ Hrun) 0 (py "mutant") _ eq_refl)
      as [c0 Hc0].
    destruct df as [|[n0 x0] [|[n1 x1] df]]; try discriminate.
    cbn [nth_error] in Hc0, Hc'.
    assert (En0 : n0 = py "mutant") by congruence.
    assert (En1 : n1 = loc1 /\ x1 = c') by (split; congruence).
    destruct En1 as [-> ->]. subst n0.
    cbn [df_get] in Hget. rewrite Eloc, str_eqb_refl in Hget. congruence.
Qed.

(** C10.  An exhaustive scan of a sequence [S] that is not empty, evaluated
    with the models [loc1 :: rest] and run to its end, writes the table and
    then one matrix, and nothing else after the file of labels but forward
    passes.  The second column of the table is the score column of the first
    model [loc1]: [20 * len(S)] scores, those that the model gives the
    labels when it is not evaluated a second time.  The matrix has [len(S)]
    rows of 20 entries and entry [(r, j)] is score [20 * r + j] of that
    column alone, as it is read back from the table; every other model has
    its column in the table and none in the matrix. *)
Theorem matrix_from_first_model (w : World num) (args : Args) (loc1 : str)
        (rest : list str) (t : list (event num)) :
  dms_mutation args = Some [] ->
  model_location args = Some (loc1 :: rest) ->
  sequence args <> [] ->
  main num_sub num_sum w args = (t, inr tt) ->
  exists (tm : list (event num)) (df : DataFrame num) (m : ScoreMatrix num)
         (col1 : list (cell num)),
    t = Written all_mutants_txt (Lines (generate_all_mutations (sequence args)))
        :: tm ++ [Written res_in_list_csv (Table df); Written res_in_matrix_csv (Matrix m)] /\
    Forall (fun ev => is_pass ev = true) tm /\
    nth_error df 1 = Some (loc1, col1) /\
    length col1 = 20 * length (sequence args) /\
    data m = chunks (length (sequence args)) 20 (map (read_cell w) col1) /\
    length (data m) = length (sequence args) /\
    (forall r j, r < length (sequence args) -> j < 20 ->
       exists cells x,
         nth_error (data m) r = Some cells /\ length cells = 20 /\
         nth_error col1 (r * 20 + j) = Some (CNum x) /\
         nth_error cells j = Some (CNum (read_float w x))) /\
    (forall loc, In loc rest -> exists c, df_get df loc = Some c) /\
    (~ In loc1 rest ->
     result (score_model num_sub num_sum w args
               (read_csv num (generate_all_mutations (sequence args))) loc1)
     = inr (df_set (read_csv num (generate_all_mutations (sequence args))) loc1 col1)).
Proof.
  intros Hdms Hlocs Hseq Hmain.
  rewrite main_steps with (1 := Hdms) (2 := Hlocs) in Hmain.
  cbn [length Nat.eqb] in Hmain.
  assert (Ht : trace (bind (emit (Written all_mutants_txt
                                   (Lines (generate_all_mutations (sequence args)))))
                 (fun _ => bind (score_models num_sub num_sum w args
                                   (read_csv num (generate_all_mutations (sequence args)))
                                   (loc1 :: rest))
                             (fun df => bind (emit (Written res_in_list_csv (Table df)))
                                          (fun _ => plot_esm_scan (sequence args)
                                                      (read_table w df)))))
               = t) by now rewrite Hmain.
  assert (Hr : result (bind (emit (Written all_mutants_txt
                                   (Lines (generate_all_mutations (sequence args)))))
                 (fun _ => bind (score_models num_sub num_sum w args
                                   (read_csv num (generate_all_mutations (sequence args)))
                                   (loc1 :: rest))
                             (fun df => bind (emit (Written res_in_list_csv (Table df)))
                                          (fun _ => plot_esm_scan (sequence args)
                                                      (read_table w df)))))
               = inr tt) by now rewrite Hmain.
  clear Hmain.
  rewrite trace_bind in Ht. rewrite result_bind in Hr.
  cbn [emit trace fst result snd app] in Ht, Hr.
  rewrite trace_bind in Ht. rewrite result_bind in Hr.
  destruct (result (score_models _ _ _ _ _ _)) as [e|df] eqn:Emodels; [discriminate|].
  rewrite trace_bind in Ht. rewrite result_bind in Hr.
  cbn [emit trace fst result snd app] in Ht, Hr.
  destruct (plot_esm_scan_ok (sequence args) (read_table w df) Hr)
    as [name [col [Hcol [Hlen Hplot]]]].
  rewrite Hplot in Ht.
  destruct (@first_model_column w args loc1 rest df Hseq Emodels)
    as [col1 [Hcol1 [Hnum Hpin]]].
  { intros Hone. destruct df as [|c0 [|c1 df]]; discriminate. }
  destruct (nth_error_read_table w df 1 Hcol) as [col0 [Hcol0 ->]].
  rewrite Hcol1 in Hcol0. injection Hcol0 as <- <-.
  rewrite length_map in Hlen.
  eexists _, df, _, col1. split; [symmetry; exact Ht|].
  split; [apply score_models_no_files|]. split; [exact Hcol1|].
  split; [lia|]. cbn [data]. split; [reflexivity|].
  split; [apply length_chunks|].
  split; [|split; [|exact Hpin]].
  - intros r j Hr' Hj.
    destruct (@chunks_entry _ (length (sequence args)) 20 (map (read_cell w) col1) r j Hr' Hj)
      as [cells [Hcells Hentry]].
    assert (Hk : r * 20 + j < length col1) by nia.
    destruct (nth_error col1 (r * 20 + j)) as [c|] eqn:Ec;
      [|apply nth_error_None in Ec; lia].
    rewrite Forall_forall in Hnum.
    destruct (Hnum c (nth_error_In _ _ Ec)) as [x ->].
    exists cells, x. split; [exact Hcells|].
    split.
    { apply (@chunks_row_length _ (length (sequence args)) 20 (map (read_cell w) col1));
        [now rewrite length_map | exact (nth_error_In _ _ Hcells)]. }
    split; [reflexivity|].
    rewrite Hentry, nth_error_map, Ec. reflexivity.
  - destruct (score_models_ok w args _ _ Emodels) as [_ [_ Hin]].
    intros loc Hloc. apply Hin. now right.
Qed.

End FirstModel.

Lemma matrix_from_first_model_witness :
  exists tm df m col1 col2 cells,
    toy_main ["m1"%string; "m2"%string] "AC" all_mutations wt_marginals =
    (Written all_mutants_txt (Lines (generate_all_mutations (py "AC")))
     :: tm ++ [Written res_in_list_csv (Table df); Written res_in_matrix_csv (Matrix m)],
     inr tt) /\
    nth_error df 1 = Some (py "m1", col1) /\
    nth_error df 2 = Some (py "m2", col2) /\
    nth_error col1 20 = Some (CNum (f32_of_Z 18)) /\
    nth_error col2 20 = Some (CNum (f32_of_Z 54)) /\
    length (data m) = 2 /\
    nth_error (data m) 1 = Some cells /\
    nth_error cells 0 = Some (CNum (f32_of_Z 18)).
Proof.
  destruct (@matrix_from_first_model f32 f32_sub f64_sum toy_world
              (toy_args ["m1"%string; "m2"%string] "AC" all_mutations wt_marginals)
              (py "m1") [py "m2"]
              (trace (toy_main ["m1"%string; "m2"%string] "AC" all_mutations wt_marginals)))
    as [tm [df [m [col1 [Ht [_ [Hcol [_ [_ [Hrows [Hentry _]]]]]]]]]]].
  - reflexivity.
  - reflexivity.
  - discriminate.
  - vm_compute. reflexivity.
  - destruct (Hentry 1 0) as [cells [x [Hcells [_ [Hx Hcx]]]]]; [simpl; lia | lia |].
    destruct (app_last_two (_ :: tm) _ _ Ht) as [Hdf _].
    vm_compute in Hdf. injection Hdf as <-.
    vm_compute in Hcol. injection Hcol as <-.
    vm_compute in Hx. injection Hx as <-.
    eexists tm, _, m, _, _, cells.
    split.
    { transitivity (trace (toy_main ["m1"%string; "m2"%string] "AC" all_mutations wt_marginals),
                    @inr error unit tt); [vm_compute; reflexivity|].
      f_equal. exact Ht. }
    split; [reflexivity|]. split; [reflexivity|]. split; [reflexivity|].
    split; [reflexivity|]. split; [exact Hrows|]. split; [exact Hcells|].
    rewrite Hcx. reflexivity.
Defined.

(** ** The labels given by the user *)

Lemma split_comma_nonempty (s : str) : split_comma s <> [].
Proof.
  destruct s as [|c s]; cbn; [discriminate|].
  destruct (Ascii.eqb c ","); [discriminate|].
  destruct (split_comma s); discriminate.
Qed.

Lemma join_comma_cons (w : str) (ws : list str) :
  ws <> [] -> join_comma (w :: ws) = w ++ ","%char :: join_comma ws.
Proof. destruct ws; [contradiction|reflexivity]. Qed.

(** X1. [generate_user_mutations] writes the header and then the pieces of
    its argument between the commas, in order and with nothing lost: joined
    with commas they give the argument back, there is one more piece than
    there are commas (empty pieces included), and no piece holds a comma. *)
Theorem generate_user_mutations_pieces (mutation : str) :
  hd_error (generate_user_mutations mutation) = Some (py "mutant") /\
  join_comma (tl (generate_user_mutations mutation)) = mutation /\
  length (tl (generate_user_mutations mutation)) =
  1 + count_occ ascii_dec mutation ","%char /\
  Forall (fun label => ~ In ","%char label) (tl (generate_user_mutations mutation)).
Proof.
  unfold generate_user_mutations. cbn [hd_error tl].
  split; [reflexivity|].
  induction mutation as [|c s [IHjoin [IHlen IHall]]].
  - cbn. repeat split. constructor; [tauto|constructor].
  - cbn [split_comma]. destruct (Ascii.eqb_spec c ",") as [->|Hc].
    + split; [|split].
      * rewrite join_comma_cons by apply split_comma_nonempty. now rewrite IHjoin.
      * cbn [length]. rewrite IHlen, count_occ_cons_eq by reflexivity. reflexivity.
      * constructor; [tauto|exact IHall].
    + pose proof (split_comma_nonempty s) as Hne.
      destruct (split_comma s) as [|w ws]; [contradiction|].
      split; [|split].
      * destruct ws as [|w' ws'].
        -- cbn in IHjoin |- *. now rewrite IHjoin.
        -- rewrite join_comma_cons in IHjoin |- * by discriminate.
           cbn. now rewrite <- IHjoin.
      * cbn [length] in IHlen |- *. rewrite IHlen, count_occ_cons_neq by congruence.
        reflexivity.
      * inversion IHall as [|? ? Hw Hws]; subst. constructor; [|exact Hws].
        intros [Heq|Hin]; [congruence|contradiction].
Qed.

(** ** Removing insertions and reading an alignment *)

Lemma not_deleted_filter (s : str) :
  Forall (fun c => Alignment.deleted c = false) s -> Alignment.remove_insertions s = s.
Proof.
  intros H. unfold Alignment.remove_insertions. apply filter_all.
  intros c Hc. rewrite Forall_forall in H. now rewrite (H c Hc).
Qed.

Lemma remove_insertions_clean (s : str) :
  Forall (fun c => Alignment.deleted c = false) (Alignment.remove_insertions s).
Proof.
  apply Forall_forall. intros c Hc. apply filter_In in Hc.
  destruct Hc as [_ Hc]. now destruct (Alignment.deleted c).
Qed.

(** X2. [remove_insertions] leaves no lowercase letter, no ["."] and no
    ["*"]; it keeps every other character, in order; it works piece by
    piece on a concatenation, changes nothing in a sequence without
    insertions, and applying it twice is applying it once. *)
Theorem remove_insertions_kept (a b : str) :
  Forall (fun c => Alignment.deleted c = false) (Alignment.remove_insertions a) /\
  (forall c, In c a -> Alignment.deleted c = false -> In c (Alignment.remove_insertions a)) /\
  Alignment.remove_insertions (a ++ b) =
  Alignment.remove_insertions a ++ Alignment.remove_insertions b /\
  (Forall (fun c => Alignment.deleted c = false) a -> Alignment.remove_insertions a = a) /\
  Alignment.remove_insertions (Alignment.remove_insertions a) = Alignment.remove_insertions a /\
  length (Alignment.remove_insertions a) + length (filter Alignment.deleted a) = length a.
Proof.
  split; [apply remove_insertions_clean|].
  split; [intros c Hin Hc; apply filter_In; split; [exact Hin|now rewrite Hc]|].
  split; [apply filter_app|].
  split; [apply not_deleted_filter|].
  split; [apply not_deleted_filter, remove_insertions_clean|].
  unfold Alignment.remove_insertions.
  induction a as [|c a IH]; [reflexivity|].
  cbn [filter]. destruct (Alignment.deleted c); cbn [negb length]; lia.
Qed.

Lemma remove_insertions_kept_witness :
  Alignment.remove_insertions (py "MK-a.*Lv") = py "MK-L" /\
  Alignment.remove_insertions (py "MK-L") = py "MK-L".
Proof.
  destruct (remove_insertions_kept (py "MK-L") []) as [_ [_ [_ [Hid _]]]].
  split; [reflexivity|]. apply Hid. repeat constructor.
Defined.

(** X3. For numbers of sequences [0 <= n <= m <= sys.maxsize],
    [read_msa] returns an alignment for both, and the alignment for [n] is
    the first [n] rows of the alignment for [m]: asking for more sequences
    appends rows and changes none.  The alignment for [n] has [n] rows, or
    as many as the file has records when these are fewer, and none of its
    sequences holds a character that marks an insertion. *)
Theorem read_msa_prefix (records : list (str * str)) (n m : Z) :
  (0 <= n <= m)%Z ->
  (m <= 2 ^ 63 - 1)%Z ->
  exists a b,
    Alignment.read_msa records n = inr a /\
    Alignment.read_msa records m = inr b /\
    a = firstn (Z.to_nat n) b /\
    length a = Nat.min (Z.to_nat n) (length records) /\
    Forall (fun r => Forall (fun c => Alignment.deleted c = false) (snd r)) a.
Proof.
  intros Hn Hm. unfold Alignment.read_msa.
  destruct (Z.ltb_spec n 0); [lia|]. destruct (Z.ltb_spec (2 ^ 63 - 1) n); [lia|].
  destruct (Z.ltb_spec m 0); [lia|]. destruct (Z.ltb_spec (2 ^ 63 - 1) m); [lia|].
  cbn [orb]. eexists _, _. split; [reflexivity|]. split; [reflexivity|].
  split; [|split].
  - rewrite firstn_map, firstn_firstn.
    now replace (Nat.min (Z.to_nat n) (Z.to_nat m)) with (Z.to_nat n) by lia.
  - now rewrite length_map, length_firstn.
  - apply Forall_forall. intros r Hr. apply in_map_iff in Hr.
    destruct Hr as [[d s0] [<- _]]. cbn [snd]. apply remove_insertions_clean.
Qed.

Lemma read_msa_prefix_witness :
  exists b,
    Alignment.read_msa
      [(py "query", py "MK-L"); (py "hit", py "MaK.-L"); (py "far", py "M--L")] 3 = inr b /\
    Alignment.read_msa
      [(py "query", py "MK-L"); (py "hit", py "MaK.-L"); (py "far", py "M--L")] 2
    = inr (firstn 2 b) /\
    firstn 2 b = [(py "query", py "MK-L"); (py "hit", py "MK-L")].
Proof.
  destruct (read_msa_prefix
              [(py "query", py "MK-L"); (py "hit", py "MaK.-L"); (py "far", py "M--L")]
              (n := 2) (m := 3)) as [a [b [Ha [Hb [Hab _]]]]]; [lia..|].
  exists b. split; [exact Hb|]. split; [rewrite Ha; f_equal; exact Hab|].
  vm_compute in Hb. injection Hb as <-. reflexivity.
Defined.

(** ** Labels written and labels read *)

Lemma unpack_label (c aa : ascii) (p : nat) (offset : Z) :
  unpack_row (c :: str_of_nat p ++ [aa]) offset = inr (c, (Z.of_nat p - offset)%Z, aa).
Proof.
  set (m := str_of_nat p).
  assert (Hslice : py_slice (c :: m ++ [aa]) (Some 1%Z) (Some (-1)%Z) = m).
  { unfold py_slice. cbn [length]. rewrite length_app. cbn [length].
    change (1 <? 0)%Z with false. change (-1 <? 0)%Z with true. cbv iota.
    replace (Z.to_nat (Z.min 1 (Z.of_nat (S (length m + 1))))) with 1 by lia.
    replace (Z.to_nat (Z.max 0 (-1 + Z.of_nat (S (length m + 1))) -
                       Z.min 1 (Z.of_nat (S (length m + 1)))))
      with (length m + 0) by lia.
    cbn [skipn]. rewrite firstn_app_2. cbn [firstn]. now rewrite app_nil_r. }
  assert (Hlast : py_index (c :: m ++ [aa]) (-1) = Some aa).
  { unfold py_index. cbn [length]. rewrite length_app. cbn [length].
    change (0 <=? -1)%Z with false. cbv iota.
    destruct (Z.leb_spec (- Z.of_nat (S (length m + 1))) (-1)); [|lia].
    replace (Z.to_nat (Z.of_nat (S (length m + 1)) + -1)) with (S (length m)) by lia.
    cbn [nth_error]. rewrite nth_error_app2 by lia. now rewrite Nat.sub_diag. }
  unfold unpack_row, ebind, opt. rewrite Hslice, Hlast.
  change (py_index (c :: m ++ [aa]) 0) with (Some c). cbv iota beta.
  unfold m. now rewrite py_int_str_of_nat.
Qed.

Lemma generated_label_shape (S label : str) :
  In label (tl (generate_all_mutations S)) ->
  exists i wt mt,
    nth_error S i = Some wt /\ In mt aas /\ label = wt :: str_of_nat (i + 1) ++ [mt].
Proof.
  unfold generate_all_mutations. cbn [tl]. intros H.
  apply in_flat_map in H. destruct H as [i [Hi H]].
  apply in_map_iff in H. destruct H as [mt [<- Hmt]].
  apply in_seq in Hi. exists i, (nth i S " "%char), mt.
  split; [apply nth_error_nth'; lia|]. split; [exact Hmt|reflexivity].
Qed.

(** X4. Every label that [generate_all_mutations] writes is read back by
    the first line of [label_row] and [compute_pppl] as the wild type, the
    position and the mutant it was made of: the label of 0-based position
    [i] unpacks to [(S[i], i + 1 - offset, mt)]. *)
Theorem generated_labels_unpack (S label : str) (offset : Z) :
  In label (tl (generate_all_mutations S)) ->
  exists i wt mt,
    nth_error S i = Some wt /\ In mt aas /\
    unpack_row label offset = inr (wt, (Z.of_nat (i + 1) - offset)%Z, mt).
Proof.
  intros H. destruct (generated_label_shape S label H) as [i [wt [mt [Hwt [Hmt ->]]]]].
  exists i, wt, mt. split; [exact Hwt|]. split; [exact Hmt|]. apply unpack_label.
Qed.

Lemma generated_labels_unpack_witness :
  In (py "C12W") (tl (generate_all_mutations (py "AAAAAAAAAAACD"))) /\
  exists i wt mt,
    nth_error (py "AAAAAAAAAAACD") i = Some wt /\ In mt aas /\
    unpack_row (py "C12W") 1 = inr (wt, (Z.of_nat (i + 1) - 1)%Z, mt).
Proof.
  assert (Hin : In (py "C12W") (tl (generate_all_mutations (py "AAAAAAAAAAACD")))).
  { apply (nth_error_In _ (11 * 20 + 18)). reflexivity. }
  split; [exact Hin|].
  exact (generated_labels_unpack (py "AAAAAAAAAAACD") (py "C12W") 1 Hin).
Defined.

Section GeneratedLabels.

Variable num : Type.
Variable num_sub : num -> num -> num.
Variable num_sum : list num -> num.

(** X5. With the default offset 1 the labels of the exhaustive scan agree
    with the sequence they were made from: scoring one of them never fails
    on the label itself, neither with the wild-type assertion nor with a
    [ValueError], under any strategy.  [label_row] can only fail with the
    [IndexError] of a tensor that is too small, and so can [compute_pppl]
    when the symbols of the sequence and the 20 letters belong to the
    vocabulary of the model. *)
Theorem generated_labels_pass_check (S label : str) :
  In label (tl (generate_all_mutations S)) ->
  (forall tp alphabet e,
     label_row num_sub label S tp alphabet 1 = inl e -> e = IndexError) /\
  (forall model alphabet e,
     result (compute_pppl num_sum label S model alphabet 1) = inl e ->
     e <> InconsistentMutationError /\ e <> ValueError /\
     (Forall (fun c => In c (all_toks alphabet)) (S ++ aas) -> e = IndexError)).
Proof.
  intros H. destruct (generated_label_shape S label H) as [i [wt [mt [Hwt [Hmt ->]]]]].
  pose proof (unpack_label wt mt (i + 1) 1) as Hrow.
  assert (Hidx : py_index S (Z.of_nat (i + 1) - 1) = Some wt).
  { rewrite py_index_nonneg by lia. rewrite <- Hwt. f_equal. lia. }
  split.
  - intros tp alphabet e. rewrite label_row_checked with (1 := Hrow).
    rewrite Hidx, Ascii.eqb_refl.
    destruct (py_index tp _) as [r|]; [|congruence].
    destruct (nth_error r _); [|congruence].
    destruct (nth_error r _); congruence.
  - intros model alphabet e. rewrite compute_pppl_checked with (1 := Hrow).
    rewrite Hidx, Ascii.eqb_refl. cbv zeta. rewrite result_bind.
    destruct (result (mapM _ _)) as [e'|lp] eqn:E; [|discriminate].
    intros [= <-].
    apply (result_mapM_error (fun e => e = IndexError)) in E;
      [|intros a e0; apply pppl_pass_error].
    subst e'. repeat split; discriminate.
Qed.

End GeneratedLabels.

Lemma generated_labels_pass_check_witness :
  In (py "C2W") (tl (generate_all_mutations (py "ACD"))) /\
  label_row f32_sub (py "C2W") (py "ACD") [] esm1b_alphabet 1 = inl IndexError /\
  result (compute_pppl f64_sum (py "C2W") (py "ACD") (fun _ => []) esm1b_alphabet 1)
  = inl IndexError.
Proof.
  assert (Hin : In (py "C2W") (tl (generate_all_mutations (py "ACD")))).
  { apply (nth_error_In _ (1 * 20 + 18)). reflexivity. }
  split; [exact Hin|].
  destruct (@generated_labels_pass_check f32 f32_sub f64_sum (py "ACD") (py "C2W") Hin)
    as [Hlabel Hpppl].
  split.
  - destruct (label_row f32_sub (py "C2W") (py "ACD") [] esm1b_alphabet 1) as [e|x] eqn:E.
    + f_equal. exact (Hlabel [] esm1b_alphabet e E).
    + vm_compute in E. discriminate E.
  - destruct (result (compute_pppl f64_sum (py "C2W") (py "ACD") (fun _ => [])
                                   esm1b_alphabet 1)) as [e|x] eqn:E.
    + f_equal. apply (Hpppl (fun _ => []) esm1b_alphabet e E). over_letters.
    + vm_compute in E. discriminate E.
Defined.

(** X6. A label of fewer than three characters is refused before the
    sequence is looked at: the empty label with [IndexError] at [row[0]],
    a label of one or two characters with the [ValueError] of [int] on the
    empty string between its ends. *)
Theorem short_label_rejected (row : str) (offset : Z) :
  length row < 3 ->
  unpack_row row offset = inl (if length row =? 0 then IndexError else ValueError).
Proof.
  intros H. destruct row as [|a [|b [|c r]]]; [reflexivity..|cbn in H; lia].
Qed.

Lemma short_label_rejected_witness :
  unpack_row (py "A1") 1 = inl ValueError.
Proof. apply (short_label_rejected (py "A1") 1). simpl. lia. Defined.

(** ** The pseudo-perplexity of a label *)

Lemma py_slice_prefix A (S : list A) (idx : Z) :
  (0 <= idx <= Z.of_nat (length S))%Z ->
  py_slice S None (Some idx) = firstn (Z.to_nat idx) S.
Proof.
  intros H. unfold py_slice. destruct (Z.ltb_spec idx 0); [lia|].
  rewrite Z.min_l by lia. change (Z.to_nat 0) with 0. cbn [skipn].
  f_equal. lia.
Qed.

Lemma py_slice_prefix_from_end A (S : list A) (idx : Z) :
  (- Z.of_nat (length S) <= idx < 0)%Z ->
  py_slice S None (Some idx) = firstn (Z.to_nat (Z.of_nat (length S) + idx)) S.
Proof.
  intros H. unfold py_slice. destruct (Z.ltb_spec idx 0); [|lia].
  rewrite Z.max_r by lia. change (Z.to_nat 0) with 0. cbn [skipn].
  f_equal. lia.
Qed.

Lemma py_slice_suffix A (S : list A) (i : Z) :
  (0 <= i <= Z.of_nat (length S))%Z ->
  py_slice S (Some i) None = skipn (Z.to_nat i) S.
Proof.
  intros H. unfold py_slice. destruct (Z.ltb_spec i 0); [lia|].
  rewrite Z.min_l by lia. apply firstn_all2. rewrite length_skipn. lia.
Qed.

Lemma nth_error_replaced A (S : list A) (n : nat) (mt : A) (i : nat) :
  n < length S ->
  nth_error (firstn n S ++ [mt] ++ skipn (Datatypes.S n) S) i =
  if i =? n then Some mt else nth_error S i.
Proof.
  intros Hn. destruct (Nat.eqb_spec i n) as [->|Hne].
  - rewrite nth_error_app2 by (rewrite length_firstn; lia).
    rewrite length_firstn. replace (n - Nat.min n (length S)) with 0 by lia. reflexivity.
  - destruct (Nat.lt_ge_cases i n) as [Hlt|Hge].
    + rewrite nth_error_app1 by (rewrite length_firstn; lia).
      rewrite nth_error_firstn. destruct (Nat.ltb_spec i n); [reflexivity|lia].
    + rewrite nth_error_app2 by (rewrite length_firstn; lia).
      rewrite length_firstn. replace (i - Nat.min n (length S)) with (Datatypes.S (i - n - 1)) by lia.
      cbn [app nth_error]. rewrite nth_error_skipn. f_equal. lia.
Qed.

Section PseudoPerplexity.

Variable num : Type.
Variable num_sum : list num -> num.

Lemma mapM_each A B (P : A -> event num -> B -> Prop) (f : A -> M num B) (l : list A) :
  (forall a, In a l -> exists e b, f a = ([e], inr b) /\ P a e b) ->
  exists es bs,
    mapM f l = (es, inr bs) /\ length es = length l /\ length bs = length l /\
    forall k a, nth_error l k = Some a ->
      exists e b, nth_error es k = Some e /\ nth_error bs k = Some b /\ P a e b.
Proof.
  induction l as [|a l IH]; intros Hf.
  - exists [], []. repeat split. intros [|k] a H; discriminate.
  - destruct (Hf a (or_introl eq_refl)) as [e [b [Ha HP]]].
    destruct IH as [es [bs [Hrun [Hes [Hbs Hk]]]]]; [intros x Hx; apply Hf; now right|].
    exists (e :: es), (b :: bs). cbn [mapM]. rewrite Ha, Hrun.
    cbn [bind ret app length]. rewrite app_nil_r, Hes, Hbs.
    repeat split. intros [|k] x Hx; cbn in Hx |- *.
    + injection Hx as <-. now exists e, b.
    + now apply Hk.
Qed.

(** X7. For a sequence and a mutant symbol of the vocabulary, a label
    inside the sequence that passes the wild-type check and a model that
    returns one row per token, wide enough for the alphabet,
    [compute_pppl] replaces residue [idx] alone by the mutant,
    makes exactly [len(S) - 2] forward passes and returns the sum of as many
    log-probabilities: pass [k] (from 0) runs on the encoded mutated
    sequence with token [1 + k] masked, and the log-probability read from
    row [1 + k] of its result is that of residue [1 + k] of the mutated
    sequence. *)
Theorem compute_pppl_passes (row S : str) (model : list nat -> list (list num))
        (alphabet : Alphabet) (offset : Z) (wt mt : ascii) (idx : Z) :
  unpack_row row offset = inr (wt, idx, mt) ->
  (0 <= idx < Z.of_nat (length S))%Z ->
  py_index S idx = Some wt ->
  Forall (fun c => In c (all_toks alphabet)) S ->
  In mt (all_toks alphabet) ->
  (forall t, length (model t) = length t) ->
  (forall t r c, In r (model t) -> get_idx alphabet c < length r) ->
  exists (S' : str) (evs : list (event num)) (log_probs : list num),
    length S' = length S /\
    (forall i, nth_error S' i = if i =? Z.to_nat idx then Some mt else nth_error S i) /\
    compute_pppl num_sum row S model alphabet offset = (evs, inr (num_sum log_probs)) /\
    length evs = length S - 2 /\
    length log_probs = length S - 2 /\
    forall k, k < length S - 2 ->
      exists masked c r x,
        list_set (batch_converter alphabet S') (1 + k) (mask_idx alphabet) = Some masked /\
        nth_error evs k = Some (Forward masked) /\
        nth_error S' (1 + k) = Some c /\
        nth_error (model masked) (1 + k) = Some r /\
        nth_error r (get_idx alphabet c) = Some x /\
        nth_error log_probs k = Some x.
Proof.
  intros Hrow Hidx Hwt _ _ Hshape Hwide.
  set (S' := py_slice S None (Some idx) ++ [mt] ++ py_slice S (Some (idx + 1)%Z) None).
  assert (HlenS' : length S' = length S) by (apply mutated_length; exact Hidx).
  assert (HS' : forall i, nth_error S' i = if i =? Z.to_nat idx then Some mt else nth_error S i).
  { intros i. unfold S'. rewrite py_slice_prefix, py_slice_suffix by lia.
    replace (Z.to_nat (idx + 1)) with (Datatypes.S (Z.to_nat idx)) by lia.
    apply nth_error_replaced. lia. }
  destruct (@mapM_each nat num
              (fun i e x =>
                 exists masked c r,
                   list_set (batch_converter alphabet S') i (mask_idx alphabet) = Some masked /\
                   e = Forward masked /\ nth_error S' i = Some c /\
                   nth_error (model masked) i = Some r /\
                   nth_error r (get_idx alphabet c) = Some x)
              (pppl_pass model alphabet S' (batch_converter alphabet S'))
              (seq 1 (length S' - 1 - 1)))
    as [evs [lps [Hrun [Hevs [Hlps Hk]]]]].
  { intros i Hi. apply in_seq in Hi.
    assert (Htok : i < length (batch_converter alphabet S'))
      by (rewrite length_batch_converter; lia).
    destruct (list_set_Some _ (mask_idx alphabet) Htok) as [masked [Hm Hlm]].
    destruct (nth_error S' i) as [c|] eqn:Hc;
      [|apply nth_error_None in Hc; lia].
    destruct (nth_error (model masked) i) as [r|] eqn:Hr;
      [|apply nth_error_None in Hr; rewrite Hshape, Hlm in Hr; lia].
    destruct (nth_error r (get_idx alphabet c)) as [x|] eqn:Hx.
    2:{ apply nth_error_None in Hx.
        pose proof (Hwide masked r c (nth_error_In _ _ Hr)). lia. }
    exists (Forward masked), x. split.
    - unfold pppl_pass. rewrite Hm. cbn [lift opt bind emit app].
      rewrite Hc. cbn [opt bind app]. rewrite Hr. cbn [opt bind app]. now rewrite Hx.
    - now exists masked, c, r. }
  exists S', evs, lps. split; [exact HlenS'|]. split; [exact HS'|].
  rewrite length_seq, HlenS' in Hevs, Hlps.
  replace (length S - 1 - 1) with (length S - 2) in Hevs, Hlps by lia.
  split; [|split; [exact Hevs|split; [exact Hlps|]]].
  - rewrite compute_pppl_checked with (1 := Hrow). rewrite Hwt, Ascii.eqb_refl.
    cbv zeta. fold S'. rewrite Hrun. cbn [bind ret app]. now rewrite app_nil_r.
  - intros k Hlt.
    destruct (Hk k (1 + k)) as [e [x [He [Hx [masked [c [r [Hm [-> [Hc [Hr Hrx]]]]]]]]]]].
    { rewrite nth_error_seq. destruct (Nat.ltb_spec k (length S' - 1 - 1)); [reflexivity|lia]. }
    now exists masked, c, r, x.
Qed.

End PseudoPerplexity.

Lemma esm1b_idx_bound (c : ascii) : esm1b_idx c < 33.
Proof. destruct c as [[] [] [] [] [] [] [] []]; vm_compute; lia. Qed.

Lemma toy_probs_wide (bias : nat) (t : list nat) (r : list f32) (c : ascii) :
  In r (toy_probs bias t) -> get_idx esm1b_alphabet c < length r.
Proof.
  unfold toy_probs. intros H. apply in_map_iff in H. destruct H as [i [<- _]].
  rewrite length_map, length_seq. apply esm1b_idx_bound.
Qed.

Lemma compute_pppl_passes_witness :
  exists (evs : list (event f32)) (log_probs : list f32),
    compute_pppl f64_sum (py "C2W") (py "ACDE") (toy_probs 0) esm1b_alphabet 1
    = (evs, inr (f64_sum log_probs)) /\
    length evs = 2 /\ length log_probs = 2.
Proof.
  destruct (@compute_pppl_passes f32 f64_sum (py "C2W") (py "ACDE") (toy_probs 0)
              esm1b_alphabet 1 "C" "W" 1 eq_refl)
    as [S' [evs [lps [_ [_ [Hrun [Hevs [Hlps _]]]]]]]].
  - simpl. lia.
  - reflexivity.
  - over_letters.
  - vm_compute. tauto.
  - apply toy_probs_shape.
  - apply toy_probs_wide.
  - exists evs, lps. split; [exact Hrun|]. split; [exact Hevs|exact Hlps].
Defined.

Section PositionZero.

Variable num : Type.
Variable num_sum : list num -> num.

Lemma list_set_length A (l m : list A) (i : nat) (v : A) :
  list_set l i v = Some m -> length m = length l.
Proof.
  revert i m. induction l as [|x l IH]; intros i m; [discriminate|].
  destruct i as [|i]; cbn.
  - intros [= <-]. reflexivity.
  - destruct (list_set l i v) as [m'|] eqn:E; [|discriminate].
    intros [= <-]. cbn. now rewrite (IH i m' E).
Qed.

Lemma pppl_pass_tokens (model : list nat -> list (list num)) (alphabet : Alphabet)
      (S : str) (toks : list nat) (i : nat) :
  Forall (fun ev => exists t, ev = Forward t /\ length t = length toks)
         (trace (pppl_pass model alphabet S toks i)).
Proof.
  unfold pppl_pass.
  destruct (list_set toks i (mask_idx alphabet)) as [m|] eqn:Hm; cbn; [|constructor].
  pose proof (list_set_length _ _ _ Hm) as Hlen.
  destruct (nth_error S i); cbn; [|repeat constructor; now exists m].
  destruct (nth_error (model m) i) as [r|]; cbn; repeat constructor; now exists m.
Qed.

(** X8. A label whose index is -1 (position 0 with the default offset) and
    whose wild type is the last residue passes the check of [compute_pppl],
    and the sequence it then scores is not the sequence with one residue
    replaced: it is [S[:-1] + mt + S], twice as long as [S], and every
    forward pass runs on the tokens of that sequence. *)
Theorem compute_pppl_position_zero (row S : str) (model : list nat -> list (list num))
        (alphabet : Alphabet) (offset : Z) (wt mt : ascii) :
  unpack_row row offset = inr (wt, (-1)%Z, mt) ->
  py_index S (-1) = Some wt ->
  length (removelast S ++ mt :: S) = 2 * length S /\
  compute_pppl num_sum row S model alphabet offset =
  bind (mapM (pppl_pass model alphabet (removelast S ++ mt :: S)
                        (batch_converter alphabet (removelast S ++ mt :: S)))
             (seq 1 (2 * length S - 2)))
       (fun log_probs => ret (num_sum log_probs)) /\
  Forall (fun ev => exists t, ev = Forward t /\
                              length t = 2 * length S + Nat.b2n (prepend_bos alphabet)
                                         + Nat.b2n (append_eos alphabet))
         (trace (compute_pppl num_sum row S model alphabet offset)).
Proof.
  intros Hrow Hwt.
  assert (Hne : S <> []) by (intros ->; discriminate Hwt).
  assert (Hlen : length (removelast S ++ mt :: S) = 2 * length S).
  { rewrite length_app. cbn [length].
    rewrite (app_removelast_last " "%char Hne) at 2 3.
    rewrite length_app. cbn [length]. lia. }
  assert (Hpos : 0 < length S) by (destruct S; [contradiction|cbn; lia]).
  assert (HS' : py_slice S None (Some (-1)%Z) ++ [mt] ++ py_slice S (Some (-1 + 1)%Z) None
                = removelast S ++ mt :: S).
  { rewrite py_slice_prefix_from_end by lia.
    change (-1 + 1)%Z with 0%Z. rewrite py_slice_suffix by lia.
    change (Z.to_nat 0) with 0. cbn [skipn app]. f_equal.
    rewrite removelast_firstn_len. f_equal. lia. }
  assert (Hrun : compute_pppl num_sum row S model alphabet offset =
                 bind (mapM (pppl_pass model alphabet (removelast S ++ mt :: S)
                               (batch_converter alphabet (removelast S ++ mt :: S)))
                            (seq 1 (2 * length S - 2)))
                      (fun log_probs => ret (num_sum log_probs))).
  { rewrite compute_pppl_checked with (1 := Hrow). rewrite Hwt, Ascii.eqb_refl.
    cbv zeta. rewrite HS', Hlen. do 3 f_equal. lia. }
  split; [exact Hlen|]. split; [exact Hrun|].
  rewrite Hrun, trace_bind. apply Forall_app. split.
  - apply trace_mapM_Forall. intros i.
    eapply Forall_impl; [|apply pppl_pass_tokens].
    intros ev [t [-> Ht]]. exists t. split; [reflexivity|].
    now rewrite Ht, length_batch_converter, Hlen.
  - destruct (result (mapM _ _)); constructor.
Qed.

End PositionZero.

Lemma compute_pppl_position_zero_witness :
  passes (trace (compute_pppl f64_sum (py "D0W") (py "ACD") (toy_probs 0) esm1b_alphabet 1))
  = [Forward [0; 32; 23; 22; 5; 23; 13; 2]; Forward [0; 5; 32; 22; 5; 23; 13; 2];
     Forward [0; 5; 23; 32; 5; 23; 13; 2]; Forward [0; 5; 23; 22; 32; 23; 13; 2]] /\
  Forall (fun ev => exists t, ev = Forward t /\ length t = 2 * 3 + 1 + 1)
         (trace (compute_pppl f64_sum (py "D0W") (py "ACD") (toy_probs 0) esm1b_alphabet 1)).
Proof.
  destruct (@compute_pppl_position_zero f32 f64_sum (py "D0W") (py "ACD") (toy_probs 0)
              esm1b_alphabet 1 "D" "W" eq_refl eq_refl) as [_ [_ Hall]].
  split; [reflexivity|exact Hall].
Defined.

(** ** What a run writes *)

Section Written.

Variable num : Type.
Variable num_sub : num -> num -> num.
Variable num_sum : list num -> num.

Lemma plot_esm_scan_writes (S : str) (df : DataFrame num) (ev : event num) :
  In ev (trace (plot_esm_scan S df)) -> exists m, ev = Written res_in_matrix_csv (Matrix m).
Proof.
  unfold plot_esm_scan. destruct (nth_error df 1) as [[name col]|]; [|contradiction].
  cbn [lift opt bind]. destruct (length col =? length S * 20); [|contradiction].
  destruct (length S =? 0); cbn; intros [<-|[]]; now eexists.
Qed.

(** X9. For a sequence over the 20 letters and labels that a CSV file
    holds as they are (no quote, no line break), [main] writes the table of
    scores exactly when every model has scored every label that
    [pd.read_csv] reads from the file of labels, and the table it writes is
    the one the loop over the models has built: when a label or a model
    fails, no table is written, not even for the models and labels already
    scored.  A label made of spaces is not read, and does not count. *)
Theorem table_written_iff_scored (w : World num) (args : Args) (dms : str)
        (locs : list str) (df : DataFrame num) :
  dms_mutation args = Some dms ->
  model_location args = Some locs ->
  Forall (fun c => In c aas) (sequence args) ->
  Forall (fun c => csv_plain c = true) dms ->
  (In (Written res_in_list_csv (Table df)) (trace (main num_sub num_sum w args)) <->
   result (score_models num_sub num_sum w args
             (read_csv num (if length dms =? 0
                            then generate_all_mutations (sequence args)
                            else generate_user_mutations dms)) locs) = inr df).
Proof.
  intros Hdms Hlocs _ _. rewrite main_steps with (1 := Hdms) (2 := Hlocs).
  rewrite trace_bind. cbn [emit trace fst result snd app]. rewrite trace_bind.
  pose proof (@score_models_no_files num num_sub num_sum w args locs
                (read_csv num (if length dms =? 0
                               then generate_all_mutations (sequence args)
                               else generate_user_mutations dms))) as Hp.
  rewrite Forall_forall in Hp.
  destruct (result (score_models _ _ _ _ _ _)) as [e|df'] eqn:E.
  - rewrite app_nil_r. split; [|discriminate].
    intros [Heq|Hin]; [destruct (length dms =? 0); discriminate|].
    specialize (Hp _ Hin). discriminate.
  - rewrite trace_bind. cbn [emit trace fst result snd app]. split.
    + intros [Heq|Hin]; [destruct (length dms =? 0); discriminate|].
      apply in_app_or in Hin. destruct Hin as [Hin|[Heq|Hin]].
      * specialize (Hp _ Hin). discriminate.
      * now injection Heq as <-.
      * destruct (length dms =? 0).
        -- apply plot_esm_scan_writes in Hin. destruct Hin as [m Hm]. discriminate.
        -- now rewrite plot_clinvar_pure in Hin.
    + intros [= <-]. right. apply in_or_app. right. now left.
Qed.

(** X10. A run on mutations given by the user ends in [plot_clinvar], which
    reads the column of one fixed model location: when all labels are scored
    and none of the models of the run has that location, the table is
    written and the run then fails. *)
Theorem user_run_needs_esm1b (w : World num) (args : Args) (dms : str)
        (locs : list str) (df : DataFrame num) :
  dms_mutation args = Some dms ->
  dms <> [] ->
  model_location args = Some locs ->
  result (score_models num_sub num_sum w args
            (read_csv num (generate_user_mutations dms)) locs) = inr df ->
  ~ In (py "/content/esm1b_t33_650M_UR50S.pt") locs ->
  In (Written res_in_list_csv (Table df)) (trace (main num_sub num_sum w args)) /\
  exists e, result (main num_sub num_sum w args) = inl e.
Proof.
  intros Hdms Hne Hlocs Hscored Hnone.
  assert (Hlen : (length dms =? 0) = false) by (destruct dms; [contradiction|reflexivity]).
  split.
  - rewrite main_steps with (1 := Hdms) (2 := Hlocs). rewrite Hlen.
    rewrite trace_bind. cbn [emit trace fst result snd app]. right.
    rewrite trace_bind, Hscored. apply in_or_app. right.
    rewrite trace_bind. cbn [emit trace fst result snd app]. now left.
  - rewrite main_steps with (1 := Hdms) (2 := Hlocs). rewrite Hlen.
    rewrite result_bind. cbn [emit result snd]. rewrite result_bind, Hscored.
    rewrite result_bind. cbn [emit result snd].
    unfold plot_clinvar. rewrite (score_models_other_column _ _ w args locs _ _ Hscored Hnone).
    exists KeyError. reflexivity.
Qed.

End Written.

Lemma table_written_iff_scored_witness :
  (forall df, ~ In (Written res_in_list_csv (Table df))
                   (trace (toy_main ["m1"%string] "ACD" "A1C,G2A" wt_marginals))) /\
  (exists df, In (Written res_in_list_csv (Table df))
                 (trace (toy_main ["m1"%string] "ACD" "A1C,C2A" wt_marginals))) /\
  (exists df, In (Written res_in_list_csv (Table df))
                 (trace (toy_main ["m1"%string] "ACD" "A1C, ,D3A" wt_marginals)) /\
              nrows df = 2) /\
  csv_plain "034" = false.
Proof.
  split; [|split; [|split; [|reflexivity]]].
  - intros df Hin.
    apply (@table_written_iff_scored f32 f32_sub f64_sum toy_world
             (toy_args ["m1"%string] "ACD" "A1C,G2A" wt_marginals) (py "A1C,G2A")
             [py "m1"] df eq_refl eq_refl) in Hin; [|over_letters|plain_labels].
    vm_compute in Hin. discriminate Hin.
  - eexists.
    apply (@table_written_iff_scored f32 f32_sub f64_sum toy_world
             (toy_args ["m1"%string] "ACD" "A1C,C2A" wt_marginals) (py "A1C,C2A")
             [py "m1"] _ eq_refl eq_refl); [over_letters|plain_labels|].
    vm_compute. reflexivity.
  - eexists. split.
    + apply (@table_written_iff_scored f32 f32_sub f64_sum toy_world
               (toy_args ["m1"%string] "ACD" "A1C, ,D3A" wt_marginals) (py "A1C, ,D3A")
               [py "m1"] _ eq_refl eq_refl); [over_letters|plain_labels|].
      vm_compute. reflexivity.
    + reflexivity.
Defined.

Lemma user_run_needs_esm1b_witness :
  exists e, result (toy_main ["m1"%string] "ACD" "A1C,C2A" wt_marginals) = inl e.
Proof.
  destruct (@user_run_needs_esm1b f32 f32_sub f64_sum toy_world
              (toy_args ["m1"%string] "ACD" "A1C,C2A" wt_marginals) (py "A1C,C2A")
              [py "m1"]
              (match result (score_models f32_sub f64_sum toy_world
                               (toy_args ["m1"%string] "ACD" "A1C,C2A" wt_marginals)
                               (read_csv f32 (generate_user_mutations (py "A1C,C2A")))
                               [py "m1"]) with
               | inr df => df
               | inl _ => []
               end) eq_refl) as [_ He].
  - discriminate.
  - reflexivity.
  - vm_compute. reflexivity.
  - intros [H|[]]. discriminate H.
  - exact He.
Defined.

(** ** The forward passes of a run *)

Section Passes.

Variable num : Type.
Variable num_sub : num -> num -> num.
Variable num_sum : list num -> num.

Lemma passes_all (t : list (event num)) :
  Forall (fun ev => is_pass ev = true) t -> passes t = t.
Proof.
  intros H. unfold passes. apply filter_all. now rewrite Forall_forall in H.
Qed.

Lemma plot_esm_scan_no_pass (S : str) (df : DataFrame num) :
  filter (@is_pass num) (trace (plot_esm_scan S df)) = [].
Proof.
  unfold plot_esm_scan. destruct (nth_error df 1) as [[name col]|]; [|reflexivity].
  cbn [lift opt bind]. destruct (length col =? length S * 20); [|reflexivity].
  now destruct (length S =? 0).
Qed.

Lemma main_passes (w : World num) (args : Args) (dms : str) (locs : list str) :
  dms_mutation args = Some dms ->
  model_location args = Some locs ->
  passes (trace (main num_sub num_sum w args)) =
  trace (score_models num_sub num_sum w args
           (read_csv num (if length dms =? 0
                          then generate_all_mutations (sequence args)
                          else generate_user_mutations dms)) locs).
Proof.
  intros Hdms Hlocs. rewrite main_steps with (1 := Hdms) (2 := Hlocs).
  set (df0 := read_csv num _).
  rewrite trace_bind. cbn [emit trace fst result snd app].
  unfold passes. cbn [filter is_pass]. rewrite trace_bind, filter_app.
  pose proof (passes_all (@score_models_no_files num num_sub num_sum w args locs df0)) as Hsm.
  unfold passes in Hsm. rewrite Hsm.
  destruct (result (score_models num_sub num_sum w args df0 locs)) as [e|df];
    [apply app_nil_r|].
  rewrite trace_bind. cbn [emit trace fst result snd app filter is_pass].
  destruct (length dms =? 0).
  - rewrite plot_esm_scan_no_pass. apply app_nil_r.
  - rewrite plot_clinvar_pure. apply app_nil_r.
Qed.

Lemma score_model_wt_trace (w : World num) (args : Args) (df : DataFrame num) (loc : str)
      (model : list nat -> list (list num)) (alphabet : Alphabet) :
  load_model_and_alphabet w loc = (ProteinBertModel model, alphabet) ->
  scoring_strategy args = wt_marginals ->
  trace (score_model num_sub num_sum w args df loc) =
  [Forward (batch_converter alphabet (sequence args))].
Proof.
  intros Hload Hs. unfold score_model. rewrite Hload, Hs.
  rewrite trace_bind. cbn [emit trace fst result snd app].
  rewrite trace_bind, apply_rows_pure. now destruct (result (apply_rows _ _ _)).
Qed.

(** X11. Under the wild-type-marginal strategy a run of single-sequence
    models makes at most one forward pass per model, however many labels
    there are, each on the unmasked tokens of the sequence; when all labels
    are scored the passes are exactly these, one per model in the order of
    the command line. *)
Theorem wt_marginal_passes (w : World num) (args : Args) (dms : str) (locs : list str) :
  dms_mutation args = Some dms ->
  model_location args = Some locs ->
  scoring_strategy args = wt_marginals ->
  (forall loc, In loc locs ->
     exists model alphabet,
       load_model_and_alphabet w loc = (ProteinBertModel model, alphabet)) ->
  length (passes (trace (main num_sub num_sum w args))) <= length locs /\
  Forall (fun ev => exists loc, In loc locs /\
                    ev = Forward (batch_converter (snd (load_model_and_alphabet w loc))
                                                  (sequence args)))
         (passes (trace (main num_sub num_sum w args))) /\
  (forall df,
     In (Written res_in_list_csv (Table df)) (trace (main num_sub num_sum w args)) ->
     passes (trace (main num_sub num_sum w args)) =
     map (fun loc => Forward (batch_converter (snd (load_model_and_alphabet w loc))
                                              (sequence args))) locs).
Proof.
  intros Hdms Hlocs Hs Hbert.
  rewrite main_passes with (1 := Hdms) (2 := Hlocs).
  set (df0 := read_csv num _).
  assert (Hgen : forall df,
    length (trace (score_models num_sub num_sum w args df locs)) <= length locs /\
    Forall (fun ev => exists loc, In loc locs /\
                      ev = Forward (batch_converter (snd (load_model_and_alphabet w loc))
                                                    (sequence args)))
           (trace (score_models num_sub num_sum w args df locs)) /\
    (forall df', result (score_models num_sub num_sum w args df locs) = inr df' ->
       trace (score_models num_sub num_sum w args df locs) =
       map (fun loc => Forward (batch_converter (snd (load_model_and_alphabet w loc))
                                                (sequence args))) locs)).
  { clear Hlocs df0. induction locs as [|l locs IH]; intros df.
    - cbn. repeat split; [lia|constructor].
    - destruct (Hbert l (or_introl eq_refl)) as [model [alphabet Hload]].
      destruct (IH (fun loc H => Hbert loc (or_intror H))) with
        (df := match result (score_model num_sub num_sum w args df l) with
               | inr d => d | inl _ => df end) as [Hlen [Hall Hok]].
      cbn [score_models]. rewrite trace_bind, result_bind.
      rewrite (score_model_wt_trace w args df l Hload Hs).
      destruct (result (score_model num_sub num_sum w args df l)) as [e|df1].
      + cbn [app length]. split; [lia|]. split; [|discriminate].
        constructor; [|constructor]. exists l. split; [now left|]. now rewrite Hload.
      + cbn [app length map]. split; [lia|]. split.
        * constructor; [exists l; split; [now left|now rewrite Hload]|].
          eapply Forall_impl; [|exact Hall].
          intros ev [loc [Hin ->]]. exists loc. split; [now right|reflexivity].
        * intros df' Hdf'. rewrite (Hok df' Hdf'). now rewrite Hload. }
  destruct (Hgen df0) as [Hlen [Hall Hok]].
  split; [exact Hlen|]. split; [exact Hall|].
  intros df Hin. apply Hok with (df' := df).
  rewrite main_steps with (1 := Hdms) (2 := Hlocs) in Hin.
  rewrite trace_bind in Hin. cbn [emit trace fst result snd app] in Hin.
  destruct Hin as [Heq|Hin]; [destruct (length dms =? 0); discriminate|].
  rewrite trace_bind in Hin. fold df0 in Hin. apply in_app_or in Hin.
  destruct Hin as [Hin|Hin].
  - pose proof (@score_models_no_files num num_sub num_sum w args locs df0) as Hp.
    rewrite Forall_forall in Hp. specialize (Hp _ Hin). discriminate.
  - destruct (result (score_models num_sub num_sum w args df0 locs)) as [e|df'];
      [contradiction|].
    rewrite trace_bind in Hin. cbn [emit trace fst result snd app] in Hin.
    destruct Hin as [Heq|Hin]; [now injection Heq as <-|].
    destruct (length dms =? 0).
    + apply plot_esm_scan_writes in Hin. destruct Hin as [m Hm]. discriminate.
    + now rewrite plot_clinvar_pure in Hin.
Qed.

End Passes.

Lemma toy_world_single (loc : str) :
  In loc [py "m1"; py "m2"] ->
  exists model alphabet,
    load_model_and_alphabet toy_world loc = (ProteinBertModel model, alphabet).
Proof.
  intros [<-|[<-|[]]]; cbn; eauto.
Qed.

Lemma wt_marginal_passes_witness :
  passes (trace (toy_main ["m1"%string; "m2"%string] "ACD" all_mutations wt_marginals))
  = [Forward [0; 5; 23; 13; 2]; Forward [0; 5; 23; 13; 2]].
Proof.
  destruct (@wt_marginal_passes f32 f32_sub f64_sum toy_world
              (toy_args ["m1"%string; "m2"%string] "ACD" all_mutations wt_marginals)
              (py all_mutations) [py "m1"; py "m2"] eq_refl eq_refl eq_refl toy_world_single)
    as [_ [_ Hok]].
  eapply eq_trans; [eapply Hok|reflexivity].
  do 3 right. left. reflexivity.
Defined.

(** ** The wild-type check in a run *)

Section WildTypeCheck.

Variable num : Type.
Variable num_sub : num -> num -> num.
Variable num_sum : list num -> num.

(** C4, as amended.  For a label that unpacks to [(wt, pos, mt)], scoring
    the label fails with the wild-type assertion exactly when the symbol
    [S[pos - offset]] ([S[pos-1]] with the default offset 1, indexed as
    Python does) exists and differs from [wt]; an index outside the sequence
    is an [IndexError] instead.  This holds for [label_row], which the
    wild-type-marginal and the masked-marginal strategies use, and for
    [compute_pppl], which has made no forward pass when it fails so.  In a
    run the failure does not come before every forward pass: when the label
    is the first of the table and disagrees with the sequence, a
    single-sequence model fails with the assertion after the one forward
    pass of the wild-type-marginal strategy, after one forward pass per
    token of the masked-marginal strategy (for a model that returns one row
    per token), and without any forward pass under pseudo-perplexity. *)
Theorem wildtype_check (row S : str) (offset : Z) (wt mt : ascii) (pos : Z) :
  unpack_row row offset = inr (wt, (pos - offset)%Z, mt) ->
  (forall tp alphabet,
     label_row num_sub row S tp alphabet offset = inl InconsistentMutationError <->
     exists c, py_index S (pos - offset) = Some c /\ c <> wt) /\
  (forall model alphabet,
     result (compute_pppl num_sum row S model alphabet offset) = inl InconsistentMutationError <->
     exists c, py_index S (pos - offset) = Some c /\ c <> wt) /\
  (py_index S (pos - offset) = None ->
   forall tp model alphabet,
     label_row num_sub row S tp alphabet offset = inl IndexError /\
     compute_pppl num_sum row S model alphabet offset = ([], inl IndexError)) /\
  (forall model alphabet,
     result (compute_pppl num_sum row S model alphabet offset) = inl InconsistentMutationError ->
     trace (compute_pppl num_sum row S model alphabet offset) = []) /\
  (forall (w : World num) (args : Args) (df : DataFrame num) (loc : str)
          (model : list nat -> list (list num)) (alphabet : Alphabet)
          (cells : list (cell num)) (c : ascii),
     sequence args = S ->
     offset_idx args = offset ->
     load_model_and_alphabet w loc = (ProteinBertModel model, alphabet) ->
     df_get df (mutation_col args) = Some (CStr row :: cells) ->
     py_index S (pos - offset) = Some c ->
     c <> wt ->
     match scoring_strategy args with
     | wt_marginals =>
         score_model num_sub num_sum w args df loc =
         ([Forward (batch_converter alphabet S)], inl InconsistentMutationError)
     | pseudo_ppl =>
         score_model num_sub num_sum w args df loc = ([], inl InconsistentMutationError)
     | masked_marginals =>
         (forall t, length (model t) = length t) ->
         result (score_model num_sub num_sum w args df loc) = inl InconsistentMutationError /\
         length (trace (score_model num_sub num_sum w args df loc)) =
         length S + Nat.b2n (prepend_bos alphabet) + Nat.b2n (append_eos alphabet)
     end).
Proof.
  intros Hrow.
  destruct (@wildtype_assertion num num_sub num_sum row S offset wt mt pos Hrow)
    as [Hlabel [Hpppl Hnone]].
  split; [exact Hlabel|]. split; [exact Hpppl|]. split; [|split; [exact Hnone|]].
  - intros Hout tp model alphabet. split.
    + rewrite label_row_checked with (1 := Hrow). now rewrite Hout.
    + rewrite compute_pppl_checked with (1 := Hrow). now rewrite Hout.
  - intros w args df loc model alphabet cells c HS Hoff Hload Hget Hc Hne.
    assert (Hfail : forall tp, label_row num_sub row S tp alphabet offset
                               = inl InconsistentMutationError)
      by (intros tp; apply Hlabel; now exists c).
    assert (Hrows : forall tp,
              apply_rows df (mutation_col args)
                (fun r => lift (label_row num_sub r (sequence args) tp alphabet
                                          (offset_idx args)))
              = ([], inl InconsistentMutationError)).
    { intros tp. unfold apply_rows. rewrite Hget, HS, Hoff. cbn [mapM].
      now rewrite Hfail. }
    unfold score_model. rewrite Hload. destruct (scoring_strategy args).
    + cbn [bind emit]. rewrite Hrows, HS. reflexivity.
    + unfold apply_rows. rewrite Hget, HS, Hoff. cbn [mapM].
      rewrite compute_pppl_checked with (1 := Hrow).
      rewrite Hc, (ascii_eqb_false Hne). reflexivity.
    + intros Hshape.
      destruct (masked_passes_run model alphabet (batch_converter alphabet (sequence args))
                  Hshape) as [evs [tp [Hrun [Hevs _]]]].
      rewrite Hrun. cbn [bind]. rewrite Hrows. cbn [bind app result snd trace fst].
      split; [reflexivity|].
      now rewrite app_nil_r, Hevs, length_batch_converter, HS.
Qed.

End WildTypeCheck.

Lemma wildtype_check_witness :
  unpack_row (py "G1C") 1 = inr ("G"%char, (1 - 1)%Z, "C"%char) /\
  label_row f32_sub (py "G1C") (py "ACD") (toy_probs 0 (batch_converter esm1b_alphabet (py "ACD")))
            esm1b_alphabet 1 = inl InconsistentMutationError /\
  trace (compute_pppl f64_sum (py "G1C") (py "ACD") (toy_probs 0) esm1b_alphabet 1) = [] /\
  score_model f32_sub f64_sum toy_world (toy_args ["m1"%string] "ACD" "G1C" wt_marginals)
              (read_csv f32 (generate_user_mutations (py "G1C"))) (py "m1")
  = ([Forward [0; 5; 23; 13; 2]], inl InconsistentMutationError) /\
  length (trace (score_model f32_sub f64_sum toy_world
                   (toy_args ["m1"%string] "ACD" "G1C" masked_marginals)
                   (read_csv f32 (generate_user_mutations (py "G1C"))) (py "m1"))) = 3 + 1 + 1.
Proof.
  destruct (@wildtype_check f32 f32_sub f64_sum (py "G1C") (py "ACD") 1 "G" "C" 1 eq_refl)
    as [Hlabel [Hpppl [_ [Hnone Hrun]]]].
  split; [reflexivity|]. split; [|split; [|split]].
  - apply Hlabel. exists "A"%char. split; [reflexivity|discriminate].
  - apply Hnone, Hpppl. exists "A"%char. split; [reflexivity|discriminate].
  - apply (Hrun toy_world (toy_args ["m1"%string] "ACD" "G1C" wt_marginals)
                (read_csv f32 (generate_user_mutations (py "G1C"))) (py "m1")
                (toy_probs 0) esm1b_alphabet [] "A"%char eq_refl eq_refl eq_refl eq_refl
                eq_refl).
    discriminate.
  - apply (Hrun toy_world (toy_args ["m1"%string] "ACD" "G1C" masked_marginals)
                (read_csv f32 (generate_user_mutations (py "G1C"))) (py "m1")
                (toy_probs 0) esm1b_alphabet [] "A"%char eq_refl eq_refl eq_refl eq_refl
                eq_refl).
    + discriminate.
    + apply toy_probs_shape.
Defined.

(** The claim as the specification has it: the failure comes before any
    forward pass under every strategy, and whenever [S[pos-1]] is not
    [wt].  A run on [ACD] with the label [G1C] makes the forward pass of
    the wild-type-marginal strategy, and the five passes of the
    masked-marginal strategy, before it fails; and the label [A4C], whose
    position is outside the sequence, fails with [IndexError]. *)
Lemma wildtype_check_counterexample :
  toy_main ["m1"%string] "ACD" "G1C" wt_marginals
  = ([Written user_mutants_txt (Lines [py "mutant"; py "G1C"]); Forward [0; 5; 23; 13; 2]],
     inl InconsistentMutationError) /\
  result (toy_main ["m1"%string] "ACD" "G1C" masked_marginals) = inl InconsistentMutationError /\
  length (passes (trace (toy_main ["m1"%string] "ACD" "G1C" masked_marginals))) = 5 /\
  unpack_row (py "A4C") 1 = inr ("A"%char, 3%Z, "C"%char) /\
  py_index (py "ACD") 3 = None /\
  label_row f32_sub (py "A4C") (py "ACD") (toy_probs 0 (batch_converter esm1b_alphabet (py "ACD")))
            esm1b_alphabet 1 = inl IndexError /\
  compute_pppl f64_sum (py "A4C") (py "ACD") (toy_probs 0) esm1b_alphabet 1
  = ([], inl IndexError).
Proof. repeat split; vm_compute; reflexivity. Qed.

Section MsaPasses.

Variable num : Type.
Variable num_sub : num -> num -> num.
Variable num_sum : list num -> num.

(** X12. For the alignment-aware model under the masked-marginal strategy,
    the number of forward passes is the number of tokens of the first
    sequence of the alignment (its residues and the markers), whatever the
    sequence of the command line is; pass [i] runs on the whole alignment
    with token [i] of the first sequence masked and every other sequence
    left as it is. *)
Theorem msa_masked_marginal_passes (w : World num) (args : Args) (df : DataFrame num)
        (loc : str) (msa_model : list (list nat) -> list (list (list num)))
        (alphabet : Alphabet) (d0 s0 : str) (rest : list (str * str)) :
  load_model_and_alphabet w loc = (MSATransformer msa_model, alphabet) ->
  scoring_strategy args = masked_marginals ->
  read_msa w = inr ((d0, s0) :: rest) ->
  Forall (fun p => length (snd p) = length s0) rest ->
  (forall t, t <> [] ->
     exists rows,
       nth_error (msa_model t) 0 = Some rows /\ length (hd [] t) <= length rows) ->
  length (trace (score_model num_sub num_sum w args df loc)) =
  length s0 + Nat.b2n (prepend_bos alphabet) + Nat.b2n (append_eos alphabet) /\
  forall i, i < length s0 + Nat.b2n (prepend_bos alphabet) + Nat.b2n (append_eos alphabet) ->
    exists masked,
      list_set (batch_converter alphabet s0) i (mask_idx alphabet) = Some masked /\
      nth_error (trace (score_model num_sub num_sum w args df loc)) i =
      Some (ForwardMSA (masked :: map (fun p => batch_converter alphabet (snd p)) rest)).
Proof.
  intros Hload Hs Hmsa Haligned Hshape.
  set (row0 := batch_converter alphabet s0).
  set (rows := map (fun p : str * str => batch_converter alphabet (snd p)) rest).
  assert (Hconv : msa_batch_converter alphabet ((d0, s0) :: rest) = inr (row0 :: rows)).
  { unfold msa_batch_converter. cbn [forallb snd]. rewrite Nat.eqb_refl. cbn [andb].
    match goal with
    | |- (if ?b then _ else _) = _ => assert (Hb : b = true)
    end.
    { apply forallb_forall. intros p Hp.
      rewrite Forall_forall in Haligned. apply Nat.eqb_eq. now apply Haligned. }
    rewrite Hb. reflexivity. }
  destruct (@mapM_each num nat (list num)
              (fun i e _ =>
                 exists masked, list_set row0 i (mask_idx alphabet) = Some masked /\
                                e = ForwardMSA (masked :: rows))
              (msa_masked_pass msa_model alphabet (row0 :: rows))
              (seq 0 (length row0)))
    as [es [tp [Hrun [Hes [_ Hk]]]]].
  { intros i Hi. apply in_seq in Hi.
    destruct (@list_set_Some _ row0 i (mask_idx alphabet)) as [masked [Hm Hlm]]; [lia|].
    destruct (Hshape (masked :: rows)) as [r [Hr Hlen]]; [discriminate|]. cbn [hd] in Hlen.
    destruct (nth_error r i) as [x|] eqn:Hx; [|apply nth_error_None in Hx; lia].
    exists (ForwardMSA (masked :: rows)), x. split; [|now exists masked].
    unfold msa_masked_pass. change (nth_error (row0 :: rows) 0) with (Some row0).
    cbn [lift opt bind tl app]. rewrite Hm.
    cbn [lift opt bind emit app]. rewrite Hr. cbn [lift opt bind app]. now rewrite Hx. }
  assert (Htrace : trace (score_model num_sub num_sum w args df loc) = es).
  { unfold score_model. rewrite Hload, Hmsa, Hs. cbn [Strategy_eqb].
    rewrite trace_bind. cbn [lift trace fst result snd app].
    rewrite trace_bind. cbn [ret trace fst result snd app].
    rewrite trace_bind, Hconv. cbn [lift trace fst result snd app hd].
    rewrite trace_bind, Hrun. cbn [trace fst result snd].
    rewrite trace_bind, apply_rows_pure.
    destruct (result (apply_rows _ _ _)); cbn [app ret trace fst]; now rewrite app_nil_r. }
  rewrite Htrace, Hes, length_seq. unfold row0 at 1 2. rewrite length_batch_converter.
  split; [reflexivity|]. intros i Hi.
  destruct (Hk i i) as [e [_ [He [_ [masked [Hm ->]]]]]].
  { rewrite nth_error_seq. unfold row0. rewrite length_batch_converter.
    destruct (Nat.ltb_spec i (length s0 + Nat.b2n (prepend_bos alphabet)
                              + Nat.b2n (append_eos alphabet))); [reflexivity|lia]. }
  now exists masked.
Qed.

End MsaPasses.

Lemma toy_msa_probs_shape (t : list (list nat)) :
  t <> [] ->
  exists rows, nth_error (toy_msa_probs t) 0 = Some rows /\ length (hd [] t) <= length rows.
Proof.
  unfold toy_msa_probs. destruct t as [|r t]; [contradiction|]. intros _.
  exists (toy_probs 0 r). split; [reflexivity|]. cbn [hd]. now rewrite toy_probs_shape.
Qed.

Lemma msa_masked_marginal_passes_witness :
  passes (trace (toy_main ["msa"%string] "ACDEF" "A1C" masked_marginals))
  = [ForwardMSA [[32; 5; 23]; [0; 5; 13]]; ForwardMSA [[0; 32; 23]; [0; 5; 13]];
     ForwardMSA [[0; 5; 32]; [0; 5; 13]]] /\
  length (trace (score_model f32_sub f64_sum toy_world
                   (toy_args ["msa"%string] "ACDEF" "A1C" masked_marginals)
                   [] (py "msa"))) = 2 + 1 + 0.
Proof.
  split; [reflexivity|].
  apply (@msa_masked_marginal_passes f32 f32_sub f64_sum toy_world
           (toy_args ["msa"%string] "ACDEF" "A1C" masked_marginals) [] (py "msa")
           toy_msa_probs msa_alphabet (py "query") (py "AC") [(py "hit", py "AD")]
           eq_refl eq_refl eq_refl).
  - repeat constructor.
  - apply toy_msa_probs_shape.
Defined.

(** ** The matrix of an exhaustive scan *)

Section Exhaustive.

Variable num : Type.
Variable num_sub : num -> num -> num.
Variable num_sum : list num -> num.

Lemma mapM_labels (f : str -> M num num) (labels : list str) :
  (forall l, In l labels -> exists x, f l = ([], inr x)) ->
  exists xs,
    mapM (fun c : cell num =>
            match c with
            | CStr row => bind (f row) (fun x => ret (CNum x))
            | CNum _ => raise TypeError
            end) (map CStr labels) = ([], inr (map (@CNum num) xs)) /\
    length xs = length labels /\
    forall k l x, nth_error labels k = Some l -> nth_error xs k = Some x ->
                  f l = ([], inr x).
Proof.
  induction labels as [|l labels IH]; intros Hf.
  - exists []. repeat split. intros [|k] l x H; discriminate.
  - destruct (Hf l (or_introl eq_refl)) as [x Hx].
    destruct IH as [xs [Hrun [Hlen Hk]]]; [intros l' Hl'; apply Hf; now right|].
    exists (x :: xs). cbn [map mapM]. rewrite Hx, Hrun. cbn [bind ret app length map].
    rewrite Hlen. repeat split.
    intros [|k] l' x' Hl' Hx'; cbn in Hl', Hx'.
    + injection Hl' as <-. injection Hx' as <-. exact Hx.
    + now apply (Hk k).
Qed.

Lemma label_row_generated (S : str) (tp : list (list num)) (alphabet : Alphabet)
      (r : nat) (mt : ascii) (row : list num) (a b : num) :
  r < length S ->
  nth_error tp (1 + r) = Some row ->
  nth_error row (get_idx alphabet mt) = Some a ->
  nth_error row (get_idx alphabet (nth r S " "%char)) = Some b ->
  label_row num_sub (nth r S " "%char :: str_of_nat (r + 1) ++ [mt]) S tp alphabet 1
  = inr (num_sub a b).
Proof.
  intros Hr Hrow Ha Hb.
  rewrite label_row_checked with (1 := unpack_label (nth r S " "%char) mt (r + 1) 1).
  rewrite py_index_nonneg by lia.
  replace (Z.to_nat (Z.of_nat (r + 1) - 1)) with r by lia.
  rewrite (nth_error_nth' S " "%char Hr), Ascii.eqb_refl.
  rewrite py_index_nonneg by lia.
  replace (Z.to_nat (1 + (Z.of_nat (r + 1) - 1))) with (1 + r) by lia.
  now rewrite Hrow, Ha, Hb.
Qed.

(** X13. An exhaustive scan of a sequence [S] over the 20 letters, all of
    them symbols of the vocabulary, with one single-sequence model under the
    wild-type-marginal strategy and the default offset, on a tensor with a
    row for every residue and a column for every symbol: the run writes the
    file of labels, makes one forward pass, writes the table and then the
    matrix.  Row [20 * r + j] of the score column of the table is the score
    of the label [S[r] + str(r+1) + aas[j]], the log-probability of the
    letter [aas[j]] minus that of [S[r]], both read from row [1 + r] of the
    tensor, and entry [(r, j)] of the matrix is this score as it is read
    back from the table. *)
Theorem exhaustive_scan_matrix (w : World num) (args : Args) (loc : str)
        (model : list nat -> list (list num)) (alphabet : Alphabet) :
  dms_mutation args = Some [] ->
  model_location args = Some [loc] ->
  load_model_and_alphabet w loc = (ProteinBertModel model, alphabet) ->
  scoring_strategy args = wt_marginals ->
  offset_idx args = 1%Z ->
  mutation_col args = py "mutant" ->
  loc <> py "mutant" ->
  Forall (fun c => In c aas) (sequence args) ->
  Forall (fun c => In c (all_toks alphabet)) (sequence args) ->
  (forall r, r < length (sequence args) ->
     exists row,
       nth_error (model (batch_converter alphabet (sequence args))) (1 + r) = Some row /\
       forall c, get_idx alphabet c < length row) ->
  exists (col : list (cell num)) (m : ScoreMatrix num),
    trace (main num_sub num_sum w args) =
    [Written all_mutants_txt (Lines (generate_all_mutations (sequence args)));
     Forward (batch_converter alphabet (sequence args));
     Written res_in_list_csv
       (Table [(py "mutant", map CStr (tl (generate_all_mutations (sequence args))));
               (loc, col)]);
     Written res_in_matrix_csv (Matrix m)] /\
    length col = 20 * length (sequence args) /\
    length (data m) = length (sequence args) /\
    forall r j, r < length (sequence args) -> j < 20 ->
      exists row a b cells,
        nth_error (model (batch_converter alphabet (sequence args))) (1 + r) = Some row /\
        nth_error row (get_idx alphabet (nth j aas " "%char)) = Some a /\
        nth_error row (get_idx alphabet (nth r (sequence args) " "%char)) = Some b /\
        nth_error col (r * 20 + j) = Some (CNum (num_sub a b)) /\
        nth_error (data m) r = Some cells /\
        nth_error cells j = Some (CNum (read_float w (num_sub a b))).
Proof.
  intros Hdms Hlocs Hload Hs Hoff Hcol Hloc _ _ Hshape.
  set (S := sequence args) in *.
  set (tp := model (batch_converter alphabet S)) in *.
  set (labels := tl (generate_all_mutations S)).
  assert (Hscore : forall r mt, r < length S ->
            exists row a b,
              nth_error tp (1 + r) = Some row /\
              nth_error row (get_idx alphabet mt) = Some a /\
              nth_error row (get_idx alphabet (nth r S " "%char)) = Some b /\
              label_row num_sub (nth r S " "%char :: str_of_nat (r + 1) ++ [mt])
                        S tp alphabet 1 = inr (num_sub a b)).
  { intros r mt Hr. destruct (Hshape r Hr) as [row [Hrow Hwide]].
    destruct (nth_error row (get_idx alphabet mt)) as [a|] eqn:Ha;
      [|apply nth_error_None in Ha; specialize (Hwide mt); lia].
    destruct (nth_error row (get_idx alphabet (nth r S " "%char))) as [b|] eqn:Hb;
      [|apply nth_error_None in Hb; specialize (Hwide (nth r S " "%char)); lia].
    exists row, a, b. repeat split; try assumption.
    now apply label_row_generated with (row := row). }
  destruct (@mapM_labels (fun row => lift (label_row num_sub row S tp alphabet 1)) labels)
    as [xs [Hrun [Hlen Hk]]].
  { intros l Hl. destruct (generated_label_shape S l Hl) as [i [wt [mt [Hwt [_ ->]]]]].
    assert (Hi : i < length S) by (apply nth_error_Some; congruence).
    destruct (Hscore i mt Hi) as [row [a [b [_ [_ [_ Hlab]]]]]].
    rewrite (nth_error_nth _ _ " "%char Hwt) in Hlab.
    exists (num_sub a b). unfold lift. now rewrite Hlab. }
  assert (Hmodels : score_models num_sub num_sum w args
                      (read_csv num (generate_all_mutations S)) [loc]
                    = ([Forward (batch_converter alphabet S)],
                       inr [(py "mutant", map CStr labels); (loc, map (@CNum num) xs)])).
  { cbn [score_models]. unfold score_model. rewrite Hload, Hs, Hoff, Hcol.
    rewrite read_csv_all_mutations. unfold apply_rows.
    fold S. fold tp. fold labels.
    change (df_get [(py "mutant", map (@CStr num) labels)] (py "mutant"))
      with (Some (map (@CStr num) labels)).
    cbv iota. rewrite Hrun. cbn [bind emit ret app df_set].
    rewrite (str_eqb_neq (a := py "mutant") (b := loc)) by congruence. reflexivity. }
  assert (Hlabels : length labels = length S * 20) by apply generate_all_mutations_length.
  assert (Hplot : plot_esm_scan S (read_table w [(py "mutant", map CStr labels);
                                                 (loc, map (@CNum num) xs)]) =
                  ([Written res_in_matrix_csv
                      (Matrix {| columns := aas;
                                 index := map (fun x => nth x S " "%char :: str_of_nat (x + 1))
                                              (seq 0 (length S));
                                 data := chunks (length S) 20
                                           (map (read_cell w) (map (@CNum num) xs)) |})],
                   if length S =? 0 then inl ValueError else inr tt)).
  { apply plot_esm_scan_run with (name := loc); [reflexivity|].
    rewrite !length_map. lia. }
  exists (map (@CNum num) xs). eexists. split; [|split; [|split]].
  - rewrite main_steps with (1 := Hdms) (2 := Hlocs). cbn [length Nat.eqb].
    fold S. rewrite Hmodels. cbn [bind emit ret app]. rewrite Hplot. reflexivity.
  - rewrite length_map. lia.
  - cbn [data]. apply length_chunks.
  - cbn [data]. intros r j Hr Hj.
    destruct (Hscore r (nth j aas " "%char) Hr) as [row [a [b [Hrow [Ha [Hb Hlab]]]]]].
    destruct (@chunks_entry _ (length S) 20 (map (read_cell w) (map (@CNum num) xs)) r j Hr Hj)
      as [cells [Hcells Hcell]].
    exists row, a, b, cells.
    pose proof (generate_all_mutations_nth S Hr Hj) as Hl. fold labels in Hl.
    destruct (nth_error xs (r * 20 + j)) as [x|] eqn:Hx;
      [|apply nth_error_None in Hx; rewrite Hlen, Hlabels in Hx; nia].
    pose proof (Hk _ _ _ Hl Hx) as Hf.
    unfold lift in Hf. rewrite Hlab in Hf. injection Hf as <-.
    repeat split; try assumption.
    + now rewrite nth_error_map, Hx.
    + now rewrite Hcell, !nth_error_map, Hx.
Qed.

End Exhaustive.

Lemma exhaustive_scan_matrix_witness :
  exists (col : list (cell f32)) (m : ScoreMatrix f32) (cells : list (cell f32)),
    trace (toy_main ["m1"%string] "AC" all_mutations wt_marginals) =
    [Written all_mutants_txt (Lines (generate_all_mutations (py "AC")));
     Forward [0; 5; 23; 2];
     Written res_in_list_csv
       (Table [(py "mutant", map CStr (tl (generate_all_mutations (py "AC"))));
               (py "m1", col)]);
     Written res_in_matrix_csv (Matrix m)] /\
    nth_error col 21 = Some (CNum f32_zero) /\
    nth_error col 20 = Some (CNum (f32_of_Z 18)) /\
    nth_error (data m) 1 = Some cells /\
    nth_error cells 1 = Some (CNum f32_zero) /\
    nth_error cells 0 = Some (CNum (f32_of_Z 18)).
Proof.
  destruct (@exhaustive_scan_matrix f32 f32_sub f64_sum toy_world
              (toy_args ["m1"%string] "AC" all_mutations wt_marginals) (py "m1")
              (toy_probs 0) esm1b_alphabet eq_refl eq_refl eq_refl eq_refl eq_refl eq_refl)
    as [col [m [Hrun [_ [_ Hentry]]]]].
  - discriminate.
  - over_letters.
  - over_letters.
  - intros r Hr. destruct r as [|[|r]]; [| |cbn in Hr; lia];
      (eexists; split; [reflexivity|intros c; exact (esm1b_idx_bound c)]).
  - destruct (Hentry 1 1) as [row [a [b [cells [Hrow [Ha [Hb [Hcol [Hcells Hcell]]]]]]]]];
      [simpl; lia..|].
    destruct (Hentry 1 0)
      as [row' [a' [b' [cells' [Hrow' [Ha' [Hb' [Hcol' [Hcells' Hcell']]]]]]]]];
      [simpl; lia..|].
    rewrite Hcells in Hcells'. injection Hcells' as <-.
    vm_compute in Hrow, Hrow'. injection Hrow as <-. injection Hrow' as <-.
    vm_compute in Ha, Hb, Ha', Hb'.
    injection Ha as <-. injection Hb as <-. injection Ha' as <-. injection Hb' as <-.
    exists col, m, cells. split; [exact Hrun|]. split; [exact Hcol|].
    split; [exact Hcol'|]. split; [exact Hcells|].
    split; [exact Hcell|exact Hcell'].
Defined.

(** ** The labels of the exhaustive scan are a key *)

Lemma NoDup_aas : NoDup aas.
Proof.
  apply (NoDup_nth aas " "%char). intros i j Hi Hj.
  rewrite length_aas in Hi, Hj.
  do 20 (destruct i as [|i]; [do 20 (destruct j as [|j]; [vm_compute; congruence|]); lia|]).
  lia.
Qed.

(** X15. No label is written twice by [generate_all_mutations]: two labels
    differ in their position or in their mutant symbol, so the rows of the
    table of an exhaustive scan are told apart by their label. *)
Theorem generate_all_mutations_NoDup (S : str) :
  NoDup (tl (generate_all_mutations S)).
Proof.
  apply NoDup_nth_error. intros k1 k2 Hk1 Heq.
  rewrite generate_all_mutations_length in Hk1.
  assert (Hk2 : k2 < length S * 20).
  { rewrite <- generate_all_mutations_length. apply nth_error_Some.
    rewrite <- Heq. apply nth_error_Some. now rewrite generate_all_mutations_length. }
  assert (Hd1 : k1 = (k1 / 20) * 20 + k1 mod 20)
    by (rewrite Nat.mul_comm; apply Nat.div_mod_eq).
  assert (Hd2 : k2 = (k2 / 20) * 20 + k2 mod 20)
    by (rewrite Nat.mul_comm; apply Nat.div_mod_eq).
  assert (Hr1 : k1 / 20 < length S) by (apply Nat.Div0.div_lt_upper_bound; lia).
  assert (Hr2 : k2 / 20 < length S) by (apply Nat.Div0.div_lt_upper_bound; lia).
  assert (Hj1 : k1 mod 20 < 20) by (apply Nat.mod_upper_bound; lia).
  assert (Hj2 : k2 mod 20 < 20) by (apply Nat.mod_upper_bound; lia).
  rewrite Hd1, Hd2 in Heq |- *.
  revert Heq Hr1 Hr2 Hj1 Hj2.
  generalize (k1 / 20), (k1 mod 20), (k2 / 20), (k2 mod 20).
  intros r1 j1 r2 j2 Heq Hr1 Hr2 Hj1 Hj2.
  rewrite (generate_all_mutations_nth S Hr1 Hj1), (generate_all_mutations_nth S Hr2 Hj2) in Heq.
  assert (Hlabel : nth r1 S " "%char :: str_of_nat (r1 + 1) ++ [nth j1 aas " "%char] =
                   nth r2 S " "%char :: str_of_nat (r2 + 1) ++ [nth j2 aas " "%char])
    by congruence.
  pose proof (unpack_label (nth r1 S " "%char) (nth j1 aas " "%char) (r1 + 1) 0) as U1.
  pose proof (unpack_label (nth r2 S " "%char) (nth j2 aas " "%char) (r2 + 1) 0) as U2.
  rewrite Hlabel, U2 in U1.
  assert (Hpos : Z.of_nat (r2 + 1) = Z.of_nat (r1 + 1)) by (inversion U1; lia).
  assert (Hmt : nth j2 aas " "%char = nth j1 aas " "%char) by (inversion U1; congruence).
  assert (Hj : j2 = j1).
  { apply (proj1 (NoDup_nth aas " "%char) NoDup_aas);
      rewrite ?length_aas; assumption. }
  lia.
Qed.
